(** * FlashChat AI: the chat endpoint [src/app/api/chat/route.js]

    A shallow embedding of the [POST] handler: the assembly of the
    [contents] array from the request body, the loop that tries the models
    of [MODELS] one after the other, and the classification of the last
    error into the response sent to the caller.  The page that calls it,
    [src/app/page.js], follows: the state of [ChatbotApp] with its
    handlers, and [parseMarkdown].

    Conventions.
    - A JavaScript string is a [string]; each character stands for the
      code unit of the same number, so the strings covered are those over
      U+0000..U+00FF.  [isWhiteSpace] and [toLowerCase] are ECMAScript's
      [\s] class and [String.prototype.toLowerCase] on that range.
    - A value that is either [undefined]/[null] or a string is an
      [option string]; [truthy] is JavaScript's truthiness on it.
    - The request body follows the endpoint's interface:
      [message] is an optional string and [files] an optional array of
      [{name, type, size, data}] with optional string [type] and [data].
    - [console] output is not modelled. *)

From Stdlib Require Import Bool List ZArith NArith Lia Ascii String Sorted.
From Stdlib Require Import DecimalString.
Import ListNotations.

Local Open Scope string_scope.
Local Open Scope bool_scope.
Local Open Scope Z_scope.
Local Open Scope list_scope.

(** ** Strings *)

Module Js.

(** Code unit of a character. *)
Definition code (c : ascii) : N := N_of_ascii c.

(** The class [\s] (WhiteSpace and LineTerminator): TAB, LF, VT, FF, CR,
    SP and NBSP are its members below U+0100. *)
Definition isWhiteSpace (c : ascii) : bool :=
  let n := code c in
  ((9 <=? n) && (n <=? 13) || (n =? 32) || (n =? 160))%N.

(** [s.replace(/\s+/g, "")]: every maximal run of white space is
    replaced by the empty string, which leaves the other characters in
    their order. *)
Fixpoint removeWhiteSpace (s : string) : string :=
  match s with
  | EmptyString => EmptyString
  | String c s' =>
      if isWhiteSpace c then removeWhiteSpace s'
      else String c (removeWhiteSpace s')
  end.

Fixpoint trimStart (s : string) : string :=
  match s with
  | EmptyString => EmptyString
  | String c s' => if isWhiteSpace c then trimStart s' else s
  end.

Fixpoint trimEnd (s : string) : string :=
  match s with
  | EmptyString => EmptyString
  | String c s' =>
      match trimEnd s' with
      | EmptyString => if isWhiteSpace c then EmptyString else String c EmptyString
      | t => String c t
      end
  end.

(** [s.trim()] *)
Definition trim (s : string) : string := trimEnd (trimStart s).

(** [s.startsWith(p)] *)
Fixpoint startsWith (s p : string) {struct p} : bool :=
  match p, s with
  | EmptyString, _ => true
  | String a p', String b s' => Ascii.eqb a b && startsWith s' p'
  | String _ _, EmptyString => false
  end.

(** [s.includes(p)] *)
Fixpoint includes (s p : string) : bool :=
  startsWith s p ||
  match s with
  | EmptyString => false
  | String _ s' => includes s' p
  end.

(** [s.split(sep)] for a separator of one character: the pieces between
    the occurrences of [sep], in order; never the empty array. *)
Fixpoint split (s : string) (sep : ascii) : list string :=
  match s with
  | EmptyString => [EmptyString]
  | String c s' =>
      if Ascii.eqb c sep then EmptyString :: split s' sep
      else match split s' sep with
           | piece :: pieces => String c piece :: pieces
           | [] => [String c EmptyString]
           end
  end.

(** Lower-case mapping of one code unit below U+0100: A-Z, and the
    letters of U+00C0..U+00DE (all but the multiplication sign U+00D7). *)
Definition toLowerChar (c : ascii) : ascii :=
  let n := code c in
  if ((65 <=? n) && (n <=? 90)
      || (192 <=? n) && (n <=? 214)
      || (216 <=? n) && (n <=? 222))%N
  then ascii_of_N (n + 32)
  else c.

(** [s.toLowerCase()] *)
Fixpoint toLowerCase (s : string) : string :=
  match s with
  | EmptyString => EmptyString
  | String c s' => String (toLowerChar c) (toLowerCase s')
  end.

(** Truthiness of a value that is [undefined]/[null] or a string. *)
Definition truthy (v : option string) : bool :=
  match v with
  | Some (String _ _) => true
  | _ => false
  end.

(** [a || b] *)
Definition or_else (a b : option string) : option string :=
  if truthy a then a else b.

End Js.

(** ** The request and the content parts *)

(** One element of [files]. *)
Record File := mkFile {
  name : string;
  type : option string;
  size : Z;
  data : option string
}.

(** The parsed body, [{ message, files }]. *)
Record Body := mkBody {
  message : option string;
  files : option (list File)
}.

(** An element of [contents]: [{ inlineData: { data, mimeType } }] or the
    prompt string. *)
Inductive Part :=
| InlineData (data mimeType : string)
| Text (prompt : string).

(** The body of [for (const file of files)]: what one file does to
    [contents].  Each [continue] leaves [contents] as it is. *)
Definition process_file (contents : list Part) (file : File) : list Part :=
  if negb (Js.truthy (type file)) then contents
  else match type file with
  | None => contents
  | Some mimeType =>
    if negb (Js.startsWith mimeType "image/") then contents
    else
      let base64Data := data file in
      if negb (Js.truthy base64Data) then contents
      else
        let base64Data :=
          match base64Data with
          | Some s =>
              if Js.includes s "," then nth_error (Js.split s ",") 1
              else Some s
          | None => None
          end in
        let base64Data := option_map Js.removeWhiteSpace base64Data in
        match base64Data with
        | Some ((String _ _) as cleaned) =>
            contents ++ [InlineData cleaned mimeType]
        | _ => contents
        end
  end.

Definition DEFAULT_PROMPT : string := "What is in this image?".

(** [contents] as it stands when the handler validates it (lines 50-97). *)
Definition build_contents (body : Body) : list Part :=
  let contents : list Part := [] in
  let contents :=
    match files body with
    | Some ((_ :: _) as fs) => fold_left process_file fs contents
    | _ => contents
    end in
  let prompt :=
    Js.or_else (option_map Js.trim (message body))
               (if (0 <? List.length contents)%nat then Some DEFAULT_PROMPT else None) in
  match prompt with
  | Some ((String _ _) as p) =>
      if (0 <? List.length contents)%nat then contents ++ [Text p]
      else contents ++ [Text p]
  | _ => contents
  end.

(** ** The upstream service and the effects of the handler *)

(** What a caught error exposes to the handler: [apiError?.status],
    [apiError?.message] and [apiError?.error?.message]. *)
Record ApiError := mkApiError {
  status : option Z;
  error_message : option string;
  nested_message : option string
}.

(** [new Error(msg)] *)
Definition Error (msg : string) : ApiError := mkApiError None (Some msg) None.

(** The value [generateContent] resolves to; [text] is [response.text]. *)
Record GenerateContentResponse := mkGenerated {
  text : option string
}.

Inductive UpstreamResult :=
| Resolves (response : GenerateContentResponse)
| Rejects (apiError : ApiError).

(** The upstream service: its answer to a call, given how many calls the
    request has made before, the model and the contents submitted.  The
    answers to the successive calls of a request are thus unrelated. *)
Definition Upstream := nat -> string -> list Part -> UpstreamResult.

(** What the handler does to the outside, in order. *)
Inductive Event :=
| EvDelay (ms : Z)
| EvGenerate (model : string) (contents : list Part) (systemInstruction : string).

Definition Trace := list Event.

Definition is_generate (ev : Event) : bool :=
  match ev with EvGenerate _ _ _ => true | EvDelay _ => false end.

(** Number of upstream calls in a trace. *)
Definition calls_made (tr : Trace) : nat := List.length (filter is_generate tr).

(** Models called in a trace, in order. *)
Fixpoint models_called (tr : Trace) : list string :=
  match tr with
  | [] => []
  | EvGenerate model _ _ :: tr' => model :: models_called tr'
  | EvDelay _ :: tr' => models_called tr'
  end.

(** Delays awaited in a trace, in order. *)
Fixpoint delays (tr : Trace) : list Z :=
  match tr with
  | [] => []
  | EvDelay ms :: tr' => ms :: delays tr'
  | EvGenerate _ _ _ :: tr' => delays tr'
  end.

(** A computation either yields a value or throws, and extends the trace. *)
Inductive Completion (A : Type) :=
| Value (a : A)
| Thrown (e : ApiError).
Arguments Value {A} a.
Arguments Thrown {A} e.

Definition M (A : Type) : Type := Trace -> Completion A * Trace.

Definition ret {A} (a : A) : M A := fun tr => (Value a, tr).

Definition bind {A B} (m : M A) (k : A -> M B) : M B :=
  fun tr =>
    match m tr with
    | (Value a, tr') => k a tr'
    | (Thrown e, tr') => (Thrown e, tr')
    end.

Definition throw {A} (e : ApiError) : M A := fun tr => (Thrown e, tr).

(** [try { body } catch (e) { handler e }] *)
Definition try_catch {A} (body : M A) (handler : ApiError -> M A) : M A :=
  fun tr =>
    match body tr with
    | (Value a, tr') => (Value a, tr')
    | (Thrown e, tr') => handler e tr'
    end.

Declare Scope js_scope.
Delimit Scope js_scope with js.
Notation "x <- m ;; k" := (bind m (fun x => k))
  (at level 100, m at next level, right associativity) : js_scope.
Notation "m ;; k" := (bind m (fun _ => k))
  (at level 100, right associativity) : js_scope.
Local Open Scope js_scope.

Definition RETRY_DELAY : Z := 1000.

(** The template literal of lines 9-16, its lines joined by LF. *)
Definition FORMATTING_INSTRUCTION : string :=
  String.concat (String "010" "")
    [ "You can use the following Markdown formatting in your responses:";
      "- Bold text: **text** or __text__";
      "- Italic text: *text* or _text_";
      "- Inline code: `code`";
      "- Links: [text](url)";
      "- Line breaks: Use regular line breaks";
      "";
      "Please use these formatting options naturally in your responses to emphasize important points and improve readability." ].

(** [await delay(ms)] *)
Definition delay (ms : Z) : M unit := fun tr => (Value tt, tr ++ [EvDelay ms]).

(** [await ai.models.generateContent({ model, contents, systemInstruction })] *)
Definition generateContent (up : Upstream) (model : string) (contents : list Part)
    (systemInstruction : string) : M GenerateContentResponse :=
  fun tr =>
    let tr' := tr ++ [EvGenerate model contents systemInstruction] in
    match up (calls_made tr) model contents with
    | Resolves response => (Value response, tr')
    | Rejects apiError => (Thrown apiError, tr')
    end.

(** ** Responses *)

(** The object given to [Response.json]. *)
Inductive Json :=
| JsonResponse (response : string)
| JsonError (error : string) (details : option string).

Record Response := mkResponse {
  json : Json;
  http_status : Z
}.

(** [Response.json(obj)] and [Response.json(obj, { status })] *)
Definition Response_json (obj : Json) (st : option Z) : Response :=
  mkResponse obj (match st with Some n => n | None => 200 end).

(** ** The fallback loop *)

Definition MODELS : list string :=
  [ "gemini-3-flash-preview";
    "gemini-2.5-flash";
    "gemini-2.5-flash-lite";
    "gemini-2.5-flash-tts";
    "gemma-3-27b-it" ].

(** [status >= 400 && status < 500 && status !== 429 && status !== 404];
    every comparison with [undefined] is false. *)
Definition is_client_error (st : option Z) : bool :=
  match st with
  | Some n => (400 <=? n) && (n <? 500) && negb (n =? 429) && negb (n =? 404)
  | None => false
  end.

(** [apiError?.error?.message || apiError?.message || "Unknown error"], the
    message of the warning logged for a failed attempt (lines 147-154). *)
Definition attempt_message (apiError : ApiError) : string :=
  match Js.or_else (Js.or_else (nested_message apiError) (error_message apiError))
                   (Some "Unknown error") with
  | Some s => s
  | None => "Unknown error"
  end.

(** How one iteration of the loop ends. *)
Inductive Flow :=
| FlowReturn (r : Response)
| FlowBreak
| FlowNext.

(** One iteration: the [try] block, then the [catch] block, which assigns
    [lastError].  The result carries the value of [lastError] after it. *)
Definition iteration (up : Upstream) (contents : list Part)
    (attempt : nat) (model : string) (lastError : option ApiError)
  : M (Flow * option ApiError) :=
  try_catch
    ((if (0 <? attempt)%nat then delay (RETRY_DELAY * Z.of_nat attempt) else ret tt) ;;
     response <- generateContent up model contents FORMATTING_INSTRUCTION ;;
     let responseText := text response in
     match responseText with
     | Some ((String _ _) as t) =>
         ret (FlowReturn (Response_json (JsonResponse t) None), lastError)
     | _ => throw (Error "No text response received from API")
     end)
    (fun apiError =>
       let lastError := Some apiError in
       let st := status apiError in
       let message := attempt_message apiError in
       if is_client_error st then ret (FlowBreak, lastError)
       else ret (FlowNext, lastError)).

(** [for (let attempt = 0; attempt <= MAX_RETRIES; attempt++)] with
    [MAX_RETRIES = MODELS.length - 1], entered at [attempt] with the models
    [MODELS[attempt], ...] still to try.  [inl] is the response returned
    from inside the loop, [inr] the value of [lastError] when the loop is
    left. *)
Fixpoint retry_loop (up : Upstream) (contents : list Part)
    (attempt : nat) (models : list string) (lastError : option ApiError)
  : M (Response + option ApiError) :=
  match models with
  | [] => ret (inr lastError)
  | model :: models' =>
      r <- iteration up contents attempt model lastError ;;
      match r with
      | (FlowReturn resp, _) => ret (inl resp)
      | (FlowBreak, lastError) => ret (inr lastError)
      | (FlowNext, lastError) => retry_loop up contents (S attempt) models' lastError
      end
  end.

(** [lastError?.message || "Unknown error"] *)
Definition errorMessage (lastError : option ApiError) : string :=
  match Js.or_else (match lastError with Some e => error_message e | None => None end)
                   (Some "Unknown error") with
  | Some s => s
  | None => "Unknown error"
  end.

Definition isRateLimitError (errorMessage : string) : bool :=
  Js.includes (Js.toLowerCase errorMessage) "rate limit"
  || Js.includes (Js.toLowerCase errorMessage) "quota".

Definition isAuthError (errorMessage : string) : bool :=
  Js.includes (Js.toLowerCase errorMessage) "api key"
  || Js.includes (Js.toLowerCase errorMessage) "authentication".

(** The response built after the loop (lines 164-202). *)
Definition failure_response (lastError : option ApiError) : Response :=
  let errorMessage := errorMessage lastError in
  if isRateLimitError errorMessage then
    Response_json
      (JsonError "Rate limit exceeded. Please wait a moment and try again."
                 (Some errorMessage))
      (Some 429)
  else if isAuthError errorMessage then
    Response_json
      (JsonError "API authentication failed. Please check your API key configuration."
                 (Some errorMessage))
      (Some 401)
  else
    Response_json
      (JsonError "Failed to generate response from API." (Some errorMessage))
      (Some 500).

(** The loop and what follows it, for a list of models. *)
Definition dispatch (up : Upstream) (models : list string) (contents : list Part)
  : M Response :=
  r <- retry_loop up contents 0 models None ;;
  match r with
  | inl resp => ret resp
  | inr lastError => ret (failure_response lastError)
  end.

(** ** The handler *)

(** What the handler reads: [process.env.GEMINI_API_KEY] and the result of
    [request.json()], [None] when it throws. *)
Record Request := mkRequest {
  GEMINI_API_KEY : option string;
  request_json : option Body
}.

Definition POST_with (models : list string) (up : Upstream) (request : Request)
  : M Response :=
  try_catch
    (if negb (Js.truthy (GEMINI_API_KEY request)) then
       ret (Response_json
              (JsonError
                 "API key not configured. Please add GEMINI_API_KEY to your environment variables."
                 None)
              (Some 500))
     else
       match request_json request with
       | None =>
           ret (Response_json
                  (JsonError "Invalid request format. Expected JSON." None)
                  (Some 400))
       | Some body =>
           let contents := build_contents body in
           if (List.length contents =? 0)%nat then
             ret (Response_json
                    (JsonError "No content provided. Please include a message or image."
                               None)
                    (Some 400))
           else dispatch up models contents
       end)
    (fun error =>
       ret (Response_json
              (JsonError "An unexpected error occurred."
                 (Js.or_else (error_message error) (Some "Unknown error")))
              (Some 500))).

(** [export async function POST(request)], run from the empty trace. *)
Definition POST (up : Upstream) (request : Request) : Completion Response * Trace :=
  POST_with MODELS up request [].

(** ** Notions used to state the properties *)

(** The piece of the data that is kept (lines 63-65), before white space
    is removed. *)
Definition kept_piece (raw : string) : option string :=
  if Js.includes raw "," then nth_error (Js.split raw ",") 1 else Some raw.

(** A string of white space only (the empty string included). *)
Fixpoint whitespace_only (s : string) : bool :=
  match s with
  | EmptyString => true
  | String c s' => Js.isWhiteSpace c && whitespace_only s'
  end.

(** No comma occurs in the string. *)
Definition comma_free (s : string) : Prop := Js.includes s "," = false.

(** [raw] is [data:<mime>;base64,<payload>]. *)
Definition DataUrl (raw mime payload : string) : Prop :=
  raw = ("data:" ++ mime ++ ";base64," ++ payload)%string.

(** The normalisation of an attachment's data in the words of the
    specification: the prefix [data:<mime>;base64,] is removed if and only
    if the data has such a prefix, then all white space is removed. *)
Definition normalized_by_prefix (raw cleaned : string) : Prop :=
  (exists mime payload,
      DataUrl raw mime payload /\ cleaned = Js.removeWhiteSpace payload)
  \/ ((forall mime payload, ~ DataUrl raw mime payload)
      /\ cleaned = Js.removeWhiteSpace raw).

(** [c] is the character [k], or [k] is a small letter a-z and [c] its
    capital. *)
Definition CaseVariant (c k : ascii) : Prop :=
  c = k \/ ((97 <= Js.code k <= 122)%N /\ (Js.code c + 32 = Js.code k)%N).

(** [s] is the keyword [kw] up to the case of its letters. *)
Inductive SameIgnoringCase : string -> string -> Prop :=
| same_empty : SameIgnoringCase EmptyString EmptyString
| same_char c k s kw :
    CaseVariant c k -> SameIgnoringCase s kw ->
    SameIgnoringCase (String c s) (String k kw).

(** [msg] contains the keyword [kw], case-insensitively. *)
Definition ContainsIgnoringCase (msg kw : string) : Prop :=
  exists pre mid post,
    msg = (pre ++ mid ++ post)%string /\ SameIgnoringCase mid kw.

(** A keyword of small ASCII letters and other ASCII characters that are not
    capitals. *)
Fixpoint plain_keyword (kw : string) : bool :=
  match kw with
  | EmptyString => true
  | String k kw' =>
      ((Js.code k <? 128) && negb ((65 <=? Js.code k) && (Js.code k <=? 90)))%N
      && plain_keyword kw'
  end.

(** The failures after which the next model is tried, as the specification
    lists them: a server error, an error without a numeric status, 429, 404. *)
Inductive RetryableStatus : option Z -> Prop :=
| retryable_server_error n : 500 <= n < 600 -> RetryableStatus (Some n)
| retryable_no_status : RetryableStatus None
| retryable_rate_limit : RetryableStatus (Some 429)
| retryable_not_found : RetryableStatus (Some 404).

(** The error thrown by the handler itself when [response.text] is missing. *)
Definition NO_TEXT_ERROR : ApiError := Error "No text response received from API".

(** How an attempt ends, given the upstream's answer to its call: with the
    response text, or with the error that the [catch] block receives. *)
Definition attempt_outcome (r : UpstreamResult) : string + ApiError :=
  match r with
  | Resolves response =>
      match text response with
      | Some ((String _ _) as t) => inl t
      | _ => inr NO_TEXT_ERROR
      end
  | Rejects apiError => inr apiError
  end.

(** The upstream that rejects with [NO_TEXT_ERROR] wherever [up] resolves
    without text. *)
Definition missing_text_rejects (up : Upstream) : Upstream :=
  fun n model contents =>
    match up n model contents with
    | Resolves response =>
        if Js.truthy (text response) then Resolves response
        else Rejects NO_TEXT_ERROR
    | Rejects apiError => Rejects apiError
    end.

(** The events of the attempt number [attempt]. *)
Definition attempt_events (contents : list Part) (attempt : nat) (model : string)
  : Trace :=
  (if (0 <? attempt)%nat then [EvDelay (RETRY_DELAY * Z.of_nat attempt)] else [])
  ++ [EvGenerate model contents FORMATTING_INSTRUCTION].

(** The events of the attempts on [models], the first one numbered [attempt]. *)
Fixpoint schedule (contents : list Part) (attempt : nat) (models : list string)
  : Trace :=
  match models with
  | [] => []
  | model :: models' =>
      attempt_events contents attempt model ++ schedule contents (S attempt) models'
  end.

(** The trace in the words of the specification: the attempt of index [i],
    and, before moving to the attempt of index [i + 1], a wait of
    base-delay * (i + 1). *)
Fixpoint expected_trace (contents : list Part) (i : nat) (models : list string)
  : Trace :=
  match models with
  | [] => []
  | model :: models' =>
      EvGenerate model contents FORMATTING_INSTRUCTION
      :: match models' with
         | [] => []
         | _ :: _ =>
             EvDelay (1000 * (Z.of_nat i + 1)) :: expected_trace contents (S i) models'
         end
  end.

(** The state machine of the dispatcher: [Run up contents attempt models r n]
    when, entered at [attempt] with [models] left, it makes [n] attempts and
    ends in [r]. *)
Inductive Run (up : Upstream) (contents : list Part)
  : nat -> list string -> option ApiError -> Response + option ApiError -> nat -> Prop :=
| Run_exhausted attempt lastError :
    Run up contents attempt [] lastError (inr lastError) 0
| Run_done attempt model models lastError t :
    attempt_outcome (up attempt model contents) = inl t ->
    Run up contents attempt (model :: models) lastError
        (inl (Response_json (JsonResponse t) None)) 1
| Run_stop attempt model models lastError e :
    attempt_outcome (up attempt model contents) = inr e ->
    is_client_error (status e) = true ->
    Run up contents attempt (model :: models) lastError (inr (Some e)) 1
| Run_next attempt model models lastError e r n :
    attempt_outcome (up attempt model contents) = inr e ->
    is_client_error (status e) = false ->
    Run up contents (S attempt) models (Some e) r n ->
    Run up contents attempt (model :: models) lastError r (S n).

(** The images of a body: what each file contributes, in the order of
    [files]. *)
Definition image_parts (body : Body) : list Part :=
  match files body with
  | Some fs => flat_map (process_file []) fs
  | None => []
  end.

(** The effective text prompt in the words of the specification. *)
Definition effective_prompt (message : option string) (images : list Part)
  : option string :=
  let substitute :=
    match images with [] => None | _ :: _ => Some DEFAULT_PROMPT end in
  match message with
  | Some m =>
      match Js.trim m with
      | EmptyString => substitute
      | String _ _ as trimmed => Some trimmed
      end
  | None => substitute
  end.

Definition is_image (p : Part) : bool :=
  match p with InlineData _ _ => true | Text _ => false end.

(** An image part as the filter lets it through: a media type that begins
    with [image/], and data that is not empty and holds no white space. *)
Definition well_formed_part (p : Part) : Prop :=
  match p with
  | InlineData d m =>
      (exists rest, m = ("image/" ++ rest)%string)
      /\ d <> EmptyString
      /\ (forall a c b, d = (a ++ String c b)%string -> Js.isWhiteSpace c = false)
  | Text _ => True
  end.

(** The declared type is not an [image/*] type. *)
Definition fails_type_check (file : File) : Prop :=
  forall rest, type file <> Some ("image/" ++ rest)%string.

(** The data is empty once cleaned. *)
Definition empty_after_cleaning (file : File) : Prop :=
  exists raw piece,
    data file = Some raw /\ kept_piece raw = Some piece
    /\ Js.removeWhiteSpace piece = EmptyString.

(** The attachments that the filter drops. *)
Definition is_dropped (file : File) : Prop :=
  fails_type_check file \/ data file = None \/ empty_after_cleaning file.

(** The time a trace spends waiting, in milliseconds. *)
Definition total_delay (tr : Trace) : Z := fold_right Z.add 0 (delays tr).

(** What an event of a request may be: a call with the contents built from
    its body, to a model of the list, with the formatting instruction; or a
    positive wait. *)
Definition legitimate_event (models : list string) (request : Request) (ev : Event)
  : Prop :=
  match ev with
  | EvGenerate model contents systemInstruction =>
      Js.truthy (GEMINI_API_KEY request) = true
      /\ (exists body,
             request_json request = Some body /\ contents = build_contents body)
      /\ contents <> []
      /\ In model models
      /\ systemInstruction = FORMATTING_INSTRUCTION
  | EvDelay ms => 0 < ms
  end.

(** ** The page [src/app/page.js]: the state of [ChatbotApp] and its handlers

    The state variables of the component are the fields of [State].  A
    handler is a function of the state it is called in; [Date.now()] and
    [new Date().toISOString()] are read from a [Clock] given to it.  A
    functional update [setX(prev => ...)] and a plain [setX(v)] are both the
    new value of the field, since a handler runs on the state it was
    rendered with; [handleSend], which awaits [fetch], is cut at the
    [await]: the part before it, and the part that runs when the request
    has settled, on the state of that later moment. *)

Module Client.

Inductive Role := user | assistant.

(** A message of a conversation; [msg_files] is present on the messages of
    the user, [isError] is [true] or absent. *)
Record Message := mkMessage {
  msg_id : Z;
  role : Role;
  content : string;
  msg_files : option (list File);
  timestamp : string;
  isError : bool
}.

Record Conversation := mkConversation {
  conv_id : Z;
  title : string;
  messages : list Message
}.

Record State := mkState {
  conversations : list Conversation;
  activeConvId : Z;
  input : string;
  files : list File;
  sidebarOpen : bool;
  isLoading : bool;
  storageLoaded : bool;
  showClearModal : bool
}.

Record Clock := mkClock {
  now : Z;
  toISOString : string
}.

(** The initial values of the [useState] calls (lines 61-70). *)
Definition initial : State :=
  mkState [mkConversation 1 "New Conversation" []] 1 "" [] true false false false.

(** [conversations.find(c => c.id === activeConvId)] *)
Definition activeConv (st : State) : option Conversation :=
  find (fun c => conv_id c =? activeConvId st) (conversations st).

(** [s.slice(0, n)] *)
Fixpoint slice_to (n : nat) (s : string) : string :=
  match n, s with
  | S n', String c s' => String c (slice_to n' s')
  | _, _ => EmptyString
  end.

(** [l.slice(-n)] on an array *)
Definition slice_last {A : Type} (n : nat) (l : list A) : list A :=
  skipn (List.length l - n) l.

(** [input.slice(0, 30) + (input.length > 30 ? '...' : '')] *)
Definition title_of_input (input : string) : string :=
  (slice_to 30 input ++ (if (30 <? String.length input)%nat then "..." else ""))%string.

(** The body of the request of [handleSend] (lines 154-158). *)
Record ChatRequest := mkChatRequest {
  message : string;
  request_files : list File;
  conversationHistory : list Message
}.

(** [prev.map(conv => conv.id === id ? { ...conv, messages: [...conv.messages, m] } : conv)] *)
Definition append_message (id : Z) (m : Message) (prev : list Conversation)
  : list Conversation :=
  map (fun conv =>
         if conv_id conv =? id
         then mkConversation (conv_id conv) (title conv) (messages conv ++ [m])
         else conv)
      prev.

(** [(!input.trim() && files.length === 0) || isLoading] *)
Definition send_blocked (st : State) : bool :=
  (negb (Js.truthy (Some (Js.trim (input st))))
   && (List.length (files st) =? 0)%nat)
  || isLoading st.

(** [handleSend] up to the call of [fetch] (lines 119-159): [None] when the
    guard returns; otherwise the state after the updates, the value of
    [activeConvId] that the rest of the handler keeps, and the request -
    [None] when [activeConv] is undefined, so that reading its messages
    throws inside the [try] block. *)
Definition handleSend_begin (clock : Clock) (st : State)
  : option (State * Z * option ChatRequest) :=
  if send_blocked st then None
  else
    let userMessage :=
      mkMessage (now clock) user (input st)
        (Some (map (fun f => mkFile (name f) (type f) (size f) (data f)) (files st)))
        (toISOString clock) false in
    let conversations' :=
      map (fun conv =>
             if conv_id conv =? activeConvId st
             then mkConversation (conv_id conv)
                    (if (List.length (messages conv) =? 0)%nat
                        && Js.truthy (Some (Js.trim (input st)))
                     then title_of_input (input st)
                     else title conv)
                    (messages conv ++ [userMessage])
             else conv)
          (conversations st) in
    let currentInput := input st in
    let currentFiles := files st in
    let st' :=
      mkState conversations' (activeConvId st) "" [] (sidebarOpen st) true
              (storageLoaded st) (showClearModal st) in
    Some (st', activeConvId st,
          match activeConv st with
          | Some conv =>
              Some (mkChatRequest currentInput currentFiles
                      (slice_last 10 (messages conv)))
          | None => None
          end).

(** What [fetch] settles to: a rejection with its message, or a response
    with its status and the outcome of [response.json()], which is the
    message of its rejection or the object parsed. *)
Record Data := mkData {
  data_response : option string;
  data_error : option string;
  data_details : option string
}.

Inductive FetchOutcome :=
| FetchRejects (error_message : string)
| FetchResolves (status : Z) (json : string + Data).

(** [response.ok] *)
Definition ok (status : Z) : bool := (200 <=? status) && (status <=? 299).

(** Lines 161-170: the text of the reply, or the message of the error
    thrown. *)
Definition reply_of (outcome : FetchOutcome) : string + string :=
  match outcome with
  | FetchRejects error_message => inr error_message
  | FetchResolves status json =>
      if negb (ok status) then
        let errorData :=
          match json with
          | inr data => data
          | inl _ => mkData None (Some "Unknown error") None
          end in
        match Js.or_else (data_error errorData)
                (Js.or_else (data_details errorData)
                   (Some ("Server error: "
                          ++ NilZero.string_of_int (Z.to_int status))%string)) with
        | Some m => inr m
        | None => inr EmptyString
        end
      else
        match json with
        | inl error_message => inr error_message
        | inr data =>
            match data_response data with
            | Some ((String _ _) as t) => inl t
            | _ => inr "No response received from API"
            end
        end
  end.

(** Lines 172-202: the message appended when the request has settled, to
    the conversation that was active when it was sent, and [finally]. *)
Definition handleSend_settle (id : Z) (clock : Clock) (reply : string + string)
    (st : State) : State :=
  let m :=
    match reply with
    | inl t => mkMessage (now clock + 1) assistant t None (toISOString clock) false
    | inr error_message =>
        mkMessage (now clock + 1) assistant
          ("Sorry, I encountered an error: " ++ error_message
           ++ ". Please try again.")%string
          None (toISOString clock) true
    end in
  mkState (append_message id m (conversations st)) (activeConvId st) (input st)
          (files st) (sidebarOpen st) false (storageLoaded st) (showClearModal st).

(** Lines 205-213 *)
Definition createNewConversation (clock : Clock) (st : State) : State :=
  let newConv := mkConversation (now clock) "New Conversation" [] in
  mkState (conversations st ++ [newConv]) (conv_id newConv) (input st) (files st)
          (sidebarOpen st) (isLoading st) (storageLoaded st) (showClearModal st).

(** Lines 215-224.  The second component tells whether [filtered[0].id]
    throws, [filtered] being empty; [setConversations(filtered)] has been
    called by then. *)
Definition deleteConversation (id : Z) (st : State) : State * bool :=
  if (List.length (conversations st) =? 1)%nat then (st, false)
  else
    let filtered := filter (fun c => negb (conv_id c =? id)) (conversations st) in
    let st' :=
      mkState filtered (activeConvId st) (input st) (files st) (sidebarOpen st)
              (isLoading st) (storageLoaded st) (showClearModal st) in
    if activeConvId st =? id then
      match filtered with
      | first :: _ =>
          (mkState filtered (conv_id first) (input st) (files st) (sidebarOpen st)
                   (isLoading st) (storageLoaded st) (showClearModal st),
           false)
      | [] => (st', true)
      end
    else (st', false).

(** Lines 230-246, the state; the item of the storage is removed as well. *)
Definition confirmClearAll (clock : Clock) (st : State) : State :=
  let newConv := mkConversation (now clock) "New Conversation" [] in
  mkState [newConv] (conv_id newConv) (input st) (files st) (sidebarOpen st)
          (isLoading st) (storageLoaded st) false.

(** [l.filter((_, i) => i !== index)], with the index of the head. *)
Fixpoint filter_index {A : Type} (i index : nat) (l : list A) : list A :=
  match l with
  | [] => []
  | x :: l' =>
      if (i =? index)%nat then filter_index (S i) index l'
      else x :: filter_index (S i) index l'
  end.

(** Lines 309-311 *)
Definition removeFile (index : nat) (st : State) : State :=
  mkState (conversations st) (activeConvId st) (input st)
          (filter_index 0 index (files st)) (sidebarOpen st) (isLoading st)
          (storageLoaded st) (showClearModal st).

(** A file of the file input, and what [FileReader.readAsDataURL] gives
    for it: the data URL, or [None] when the reader fails. *)
Record BrowserFile := mkBrowserFile {
  file_name : string;
  file_type : string;
  file_size : Z
}.

Definition Reader := BrowserFile -> option string.

Definition MAX_FILE_SIZE : Z := 10 * 1024 * 1024.

Definition ALLOWED_TYPES : list string :=
  ["image/jpeg"; "image/png"; "image/gif"; "image/webp"].

(** [ALLOWED_TYPES.includes(t)] *)
Definition allowed (t : string) : bool := existsb (String.eqb t) ALLOWED_TYPES.

(** The callback of [selected.filter] (lines 255-265): the text of the
    alert, or [None] for a file that is kept. *)
Definition rejection (file : BrowserFile) : option string :=
  if MAX_FILE_SIZE <? file_size file then
    Some (file_name file ++ " is too large. Maximum size is 10MB.")%string
  else if negb (allowed (file_type file)) then
    Some (file_name file ++ " is not a supported file type. Only images are allowed.")%string
  else None.

(** Lines 280-294 for one file: the entry with the piece of the data URL
    after its first comma, or [None] when the file cannot be read. *)
Definition read_file (reader : Reader) (file : BrowserFile) : option File :=
  match reader file with
  | Some dataUrl =>
      let base64 := nth_error (Js.split dataUrl ",") 1 in
      Some (mkFile (file_name file) (Some (file_type file)) (file_size file) base64)
  | None => None
  end.

(** [handleFileSelect] (lines 248-307): the state, and the alerts shown. *)
Definition handleFileSelect (reader : Reader) (selected : list BrowserFile)
    (st : State) : State * list string :=
  match selected with
  | [] => (st, [])
  | _ :: _ =>
      let alerts := flat_map (fun f => match rejection f with
                                       | Some a => [a]
                                       | None => []
                                       end) selected in
      let validFiles :=
        filter (fun f => match rejection f with Some _ => false | None => true end)
               selected in
      let successfulFiles :=
        flat_map (fun f => match read_file reader f with
                           | Some entry => [entry]
                           | None => []
                           end) validFiles in
      match successfulFiles with
      | [] => (st, alerts)
      | _ :: _ =>
          (mkState (conversations st) (activeConvId st) (input st)
                   (files st ++ successfulFiles) (sidebarOpen st) (isLoading st)
                   (storageLoaded st) (showClearModal st),
           alerts)
      end
  end.

(** [`data:${file.type};base64,${file.data}`], the source of the image of
    [ImageAttachment] (lines 43-47); [None] when the component renders
    nothing. *)
Definition imageUrl (file : File) : option string :=
  match data file with
  | Some ((String _ _) as d) =>
      Some ("data:" ++ match type file with Some t => t | None => "undefined" end
            ++ ";base64," ++ d)%string
  | _ => None
  end.

(** What the storage holds under ['chatbot-data'], as [JSON.parse] reads
    it: nothing, a text that makes the [try] block throw, or an object with
    its [conversations] (when an array) and its [activeConvId] (when a
    number). *)
Inductive Stored :=
| NoItem
| Corrupt
| Saved (conversations : option (list Conversation)) (activeConvId : option Z).

(** [loadConversations] (lines 78-96): the state and the storage after. *)
Definition loadConversations (storage : Stored) (st : State) : State * Stored :=
  let loaded cs id :=
    mkState cs id (input st) (files st) (sidebarOpen st) (isLoading st) true
            (showClearModal st) in
  match storage with
  | NoItem => (loaded (conversations st) (activeConvId st), storage)
  | Corrupt => (loaded (conversations st) (activeConvId st), NoItem)
  | Saved (Some ((_ :: _) as cs)) saved_id =>
      (loaded cs
         match saved_id with
         | Some id =>
             if negb (id =? 0) && existsb (fun c => conv_id c =? id) cs
             then id else activeConvId st
         | None => activeConvId st
         end,
       storage)
  | Saved _ _ => (loaded (conversations st) (activeConvId st), storage)
  end.

(** The effect that saves (lines 102-113), when [setItem] does not throw. *)
Definition saveConversations (st : State) (storage : Stored) : Stored :=
  if storageLoaded st
  then Saved (Some (conversations st)) (Some (activeConvId st))
  else storage.

(** The request as the server parses it: [JSON.stringify] on the page,
    [request.json()] and [const { message, files } = body] in the handler,
    which does not read [conversationHistory]. *)
Definition body_of (request : ChatRequest) : Body :=
  mkBody (Some (message request)) (Some (request_files request)).

(** The response of the server as [fetch] hands it to the page: the
    platform sends the object given to [Response.json] as the body, with
    the status, and [response.json()] parses it back. *)
Definition deliver (r : Response) : FetchOutcome :=
  FetchResolves (http_status r)
    (inr match json r with
         | JsonResponse t => mkData (Some t) None None
         | JsonError err details => mkData None (Some err) details
         end).

(** The states in which every handler finds an active conversation: the
    conversations have distinct ids and one of them is the active one. *)
Definition well_formed (st : State) : Prop :=
  NoDup (map conv_id (conversations st))
  /\ In (activeConvId st) (map conv_id (conversations st)).

(** The handlers written in the markup: [setActiveConvId(conv.id)] on a
    conversation of the list (line 389), [setInput(e.target.value)]
    (line 510), [setSidebarOpen(!sidebarOpen)] (line 419),
    [setShowClearModal(false)] (line 350), and [clearAllConversations]
    (lines 226-228). *)
Definition selectConversation (conv : Conversation) (st : State) : State :=
  mkState (conversations st) (conv_id conv) (input st) (files st) (sidebarOpen st)
          (isLoading st) (storageLoaded st) (showClearModal st).

Definition setInput (value : string) (st : State) : State :=
  mkState (conversations st) (activeConvId st) value (files st) (sidebarOpen st)
          (isLoading st) (storageLoaded st) (showClearModal st).

Definition toggleSidebar (st : State) : State :=
  mkState (conversations st) (activeConvId st) (input st) (files st)
          (negb (sidebarOpen st)) (isLoading st) (storageLoaded st)
          (showClearModal st).

Definition setShowClearModal (value : bool) (st : State) : State :=
  mkState (conversations st) (activeConvId st) (input st) (files st) (sidebarOpen st)
          (isLoading st) (storageLoaded st) value.

Definition clearAllConversations (st : State) : State := setShowClearModal true st.

(** One event of the page, once the storage is loaded.  A new conversation
    takes [Date.now()] as its id: the step is listed for the clock values
    that no conversation has as its id. *)
Inductive step : State -> State -> Prop :=
| step_send clock st st' id request :
    handleSend_begin clock st = Some (st', id, request) -> step st st'
| step_settle id clock reply st :
    step st (handleSend_settle id clock reply st)
| step_create clock st :
    ~ In (now clock) (map conv_id (conversations st)) ->
    step st (createNewConversation clock st)
| step_delete id st :
    step st (fst (deleteConversation id st))
| step_clear_all st :
    step st (clearAllConversations st)
| step_confirm_clear clock st :
    step st (confirmClearAll clock st)
| step_cancel_clear st :
    step st (setShowClearModal false st)
| step_select conv st :
    In conv (conversations st) -> step st (selectConversation conv st)
| step_input value st :
    step st (setInput value st)
| step_sidebar st :
    step st (toggleSidebar st)
| step_remove_file index st :
    step st (removeFile index st)
| step_file_select reader selected st :
    step st (fst (handleFileSelect reader selected st)).

(** The states that a sequence of events leads to. *)
Inductive reachable (st : State) : State -> Prop :=
| reachable_refl : reachable st st
| reachable_step st' st'' : reachable st st' -> step st' st'' -> reachable st st''.

End Client.

(** ** [parseMarkdown] of [src/app/page.js]

    The regular expressions of [parseMarkdown] are literals around groups
    [(.+?)]: a group takes the shortest run, of one character at least and
    without line terminator, after which the rest of the expression
    matches.  [replace] with a global expression takes the matches from
    left to right, each search starting where the last match ended. *)

Module Markdown.

(** The characters that [.] does not match: LF and CR below U+0100. *)
Definition isLineTerminator (c : ascii) : bool :=
  ((Js.code c =? 10) || (Js.code c =? 13))%N.

(** The rest of [s] after the literal [p], when [s] begins with [p]. *)
Fixpoint after_literal (p s : string) : option string :=
  match p, s with
  | EmptyString, _ => Some s
  | String a p', String b s' =>
      if Ascii.eqb a b then after_literal p' s' else None
  | String _ _, EmptyString => None
  end.

(** [(.+?)] followed by the literal [closing], at the head of [s]: the
    group. *)
Fixpoint lazy_group (closing : string) (s : string) : option string :=
  match s with
  | EmptyString => None
  | String c s' =>
      if isLineTerminator c then None
      else
        match after_literal closing s' with
        | Some _ => Some (String c EmptyString)
        | None =>
            match lazy_group closing s' with
            | Some group => Some (String c group)
            | None => None
            end
        end
  end.

(** [(.+?)\]\((.+?)\)] at the head of [s]: the two groups.  The first
    group is lengthened as long as the rest does not match. *)
Fixpoint lazy_link (s : string) : option (string * string) :=
  match s with
  | EmptyString => None
  | String c s' =>
      if isLineTerminator c then None
      else
        match match after_literal "](" s' with
              | Some s2 => lazy_group ")" s2
              | None => None
              end with
        | Some url => Some (String c EmptyString, url)
        | None =>
            match lazy_link s' with
            | Some (label, url) => Some (String c label, url)
            | None => None
            end
        end
  end.

(** A pattern tells, for the text at the position of the search, whether
    the expression matches there: the text that replaces the match and the
    number of characters matched. *)
Definition Pattern := string -> option (string * nat).

(** [opening(.+?)closing], replaced by [render $1]. *)
Definition delimited (opening closing : string) (render : string -> string)
  : Pattern :=
  fun s =>
    match after_literal opening s with
    | Some s1 =>
        match lazy_group closing s1 with
        | Some group =>
            Some (render group,
                  (String.length opening + String.length group
                   + String.length closing)%nat)
        | None => None
        end
    | None => None
    end.

(** [s.replace(re, ...)] for a global [re] given as a pattern, from a
    position where [skip] characters of the last match are still to be
    passed. *)
Fixpoint replace_from (pattern : Pattern) (skip : nat) (s : string) : string :=
  match s with
  | EmptyString => EmptyString
  | String c s' =>
      match skip with
      | S skip' => replace_from pattern skip' s'
      | O =>
          match pattern s with
          | Some (replacement, matched) =>
              (replacement ++ replace_from pattern (matched - 1) s')%string
          | None => String c (replace_from pattern 0 s')
          end
      end
  end.

Definition replace (pattern : Pattern) (s : string) : string :=
  replace_from pattern 0 s.

(** The double quote. *)
Definition quote : string := String "034" EmptyString.

Definition strong (group : string) : string :=
  ("<strong>" ++ group ++ "</strong>")%string.

Definition em (group : string) : string := ("<em>" ++ group ++ "</em>")%string.

Definition code_tag (group : string) : string :=
  ("<code class=" ++ quote ++ "bg-neutral-700 px-1 py-0.5 rounded text-sm" ++ quote
   ++ ">" ++ group ++ "</code>")%string.

Definition anchor (label url : string) : string :=
  ("<a href=" ++ quote ++ url ++ quote
   ++ " target=" ++ quote ++ "_blank" ++ quote
   ++ " rel=" ++ quote ++ "noopener noreferrer" ++ quote
   ++ " class=" ++ quote ++ "text-blue-400 hover:underline" ++ quote
   ++ ">" ++ label ++ "</a>")%string.

(** [/\[(.+?)\]\((.+?)\)/] *)
Definition link : Pattern :=
  fun s =>
    match after_literal "[" s with
    | Some s1 =>
        match lazy_link s1 with
        | Some (label, url) =>
            Some (anchor label url,
                  (1 + String.length label + 2 + String.length url + 1)%nat)
        | None => None
        end
    | None => None
    end.

(** [/\n/] *)
Definition line_feed : Pattern :=
  fun s =>
    match s with
    | String c _ => if (Js.code c =? 10)%N then Some ("<br>", 1%nat) else None
    | EmptyString => None
    end.

(** Lines 7-30 *)
Definition parseMarkdown (text : option string) : string :=
  match text with
  | Some ((String _ _) as text) =>
      let html := text in
      let html := replace (delimited "**" "**" strong) html in
      let html := replace (delimited "__" "__" strong) html in
      let html := replace (delimited "*" "*" em) html in
      let html := replace (delimited "_" "_" em) html in
      let html := replace (delimited "`" "`" code_tag) html in
      let html := replace link html in
      let html := replace line_feed html in
      html
  | _ => EmptyString
  end.

(** Every character of the string satisfies [p]. *)
Fixpoint all_chars (p : ascii -> bool) (s : string) : bool :=
  match s with
  | EmptyString => true
  | String c s' => p c && all_chars p s'
  end.

(** The characters that open no expression of [parseMarkdown]: all but the
    asterisk, the underscore, the backquote, the opening bracket and LF. *)
Definition inert (c : ascii) : bool :=
  negb (Ascii.eqb c "*") && negb (Ascii.eqb c "_") && negb (Ascii.eqb c "`")
  && negb (Ascii.eqb c "[") && negb (Js.code c =? 10)%N.

(** The inert characters that end no group either: neither a closing
    bracket or parenthesis nor CR. *)
Definition plain (c : ascii) : bool :=
  inert c && negb (Ascii.eqb c "]") && negb (Ascii.eqb c ")")
  && negb (Js.code c =? 13)%N.

(** The pattern matches at no position of the string. *)
Fixpoint unmatched (pattern : Pattern) (s : string) : Prop :=
  match s with
  | EmptyString => True
  | String _ s' => pattern s = None /\ unmatched pattern s'
  end.

(** The pattern matches only where the character [d] stands. *)
Definition opens_with (d : ascii) (pattern : Pattern) : Prop :=
  forall c s, Ascii.eqb d c = false -> pattern (String c s) = None.

End Markdown.

(** ** Scenarios *)

Module Scenario.

Definition three_models : list string := ["model-a"; "model-b"; "model-c"].

Definition chat (m : string) : Request :=
  mkRequest (Some "key") (Some (mkBody (Some m) None)).

(** 503, then 429, then a text. *)
Definition up_503_429_ok : Upstream :=
  fun n _ _ =>
    match n with
    | 0%nat => Rejects (mkApiError (Some 503) (Some "The model is overloaded") None)
    | 1%nat => Rejects (mkApiError (Some 429) (Some "Quota exceeded") None)
    | _ => Resolves (mkGenerated (Some "Hello!"))
    end.

(** 403 on every call. *)
Definition up_403 : Upstream :=
  fun _ _ _ => Rejects (mkApiError (Some 403) (Some "Permission denied") None).

(** Server errors whose last message speaks of a quota. *)
Definition up_quota : Upstream :=
  fun n _ _ =>
    match n with
    | 0%nat | 1%nat => Rejects (mkApiError (Some 500) (Some "Internal error") None)
    | _ =>
        Rejects (mkApiError (Some 500) (Some "Quota exceeded for this project") None)
    end.

(** An error that carries its message under [error] and none of its own. *)
Definition nested_quota_error : ApiError :=
  mkApiError (Some 429) None (Some "Quota exceeded for this project").

(** 429 on every call, the message nested. *)
Definition up_nested_quota : Upstream := fun _ _ _ => Rejects nested_quota_error.

(** A call that resolves without text, then a text. *)
Definition up_no_text_then_ok : Upstream :=
  fun n _ _ =>
    match n with
    | 0%nat => Resolves (mkGenerated None)
    | _ => Resolves (mkGenerated (Some "Hello!"))
    end.

(** A PNG sent as a data URL, with a line break and a space in its payload. *)
Definition png : File :=
  mkFile "a.png" (Some "image/png") 8
    (Some ("data:image/png;base64,iVBO" ++ String "010" "Rw0K Gg==")%string).

(** A file announced as an image whose data has a comma and no prefix. *)
Definition comma_file : File :=
  mkFile "b.png" (Some "image/png") 5 (Some "AB,CD").

Definition notes : File := mkFile "notes.txt" (Some "text/plain") 3 (Some "abc").

Definition blank_image : File :=
  mkFile "c.png" (Some "image/png") 0 (Some "data:image/png;base64,  ").

(** A conversation of twelve messages, of ids 1 to 12. *)
Definition twelve_messages : list Client.Message :=
  map (fun i => Client.mkMessage i Client.user "ping" (Some [])
                  "2023-11-14T22:13:20.000Z" false)
      [1; 2; 3; 4; 5; 6; 7; 8; 9; 10; 11; 12].

Definition long_conversation : Client.State :=
  Client.mkState [Client.mkConversation 1 "ping" twelve_messages] 1
    "Hi" [] true false true false.

End Scenario.

(** ** Tactics *)

(** Case analysis on the comparisons of code units in the goal and the
    hypotheses. *)
Ltac split_comparisons :=
  repeat match goal with
  | |- context [N.leb ?a ?b] => destruct (N.leb_spec a b)
  | |- context [N.ltb ?a ?b] => destruct (N.ltb_spec a b)
  | H : context [N.leb ?a ?b] |- _ => destruct (N.leb_spec a b)
  | H : context [N.ltb ?a ?b] |- _ => destruct (N.ltb_spec a b)
  end.

(** * Properties *)

(** ** Strings *)

Section StringFacts.

Local Open Scope string_scope.

Lemma append_empty_inv (a b : string) :
  a ++ b = "" -> a = "" /\ b = "".
Proof. destruct a; simpl; [auto | discriminate]. Qed.

Lemma append_assoc (a b c : string) : (a ++ b) ++ c = a ++ b ++ c.
Proof. induction a; simpl; congruence. Qed.

Lemma append_empty_r (a : string) : a ++ "" = a.
Proof. induction a; simpl; congruence. Qed.

Lemma startsWith_iff (s p : string) :
  Js.startsWith s p = true <-> exists r, s = p ++ r.
Proof.
  revert s; induction p as [|a p IH]; intros s; simpl.
  - split; eauto.
  - destruct s as [|b s].
    + split; [discriminate | intros [r H]; discriminate].
    + rewrite andb_true_iff, Ascii.eqb_eq, IH. split.
      * intros [-> [r ->]]. eauto.
      * intros [r H]. injection H as -> ->. eauto.
Qed.

Lemma includes_iff (s p : string) :
  Js.includes s p = true <-> exists a b, s = a ++ p ++ b.
Proof.
  induction s as [|c s IH]; simpl.
  - rewrite orb_false_r, startsWith_iff. split.
    + intros [r H]. exists "", r. exact H.
    + intros (a & b & H). symmetry in H.
      apply append_empty_inv in H as [-> H]. simpl in H. eauto.
  - rewrite orb_true_iff, startsWith_iff, IH. split.
    + intros [[r H] | (a & b & H)].
      * exists "", r. exact H.
      * exists (String c a), b. simpl. now rewrite H.
    + intros (a & b & H). destruct a as [|c' a]; simpl in H.
      * left. eauto.
      * right. injection H as _ H. eauto.
Qed.

Lemma includes_char (s : string) (c : ascii) :
  Js.includes s (String c "") = false <->
  forall a b, s <> a ++ String c b.
Proof.
  split.
  - intros H a b E.
    assert (Js.includes s (String c "") = true) as T
      by (apply includes_iff; exists a, b; exact E).
    congruence.
  - intros H. destruct (Js.includes s (String c "")) eqn:E; [|reflexivity].
    apply includes_iff in E as (a & b & E). exfalso. exact (H a b E).
Qed.

Lemma includes_char_cons (c d : ascii) (s : string) :
  Js.includes (String d s) (String c "") = Ascii.eqb c d || Js.includes s (String c "").
Proof. simpl. now rewrite andb_true_r. Qed.

Lemma split_not_nil (s : string) (sep : ascii) : Js.split s sep <> [].
Proof.
  destruct s as [|c s]; simpl; [discriminate|].
  destruct (Ascii.eqb c sep); [discriminate|].
  destruct (Js.split s sep); discriminate.
Qed.

Lemma split_without_sep (s : string) (sep : ascii) :
  Js.includes s (String sep "") = false -> Js.split s sep = [s].
Proof.
  induction s as [|c s IH]; [reflexivity|].
  rewrite includes_char_cons, orb_false_iff. intros [Hc Hs].
  cbn [Js.split]. rewrite Ascii.eqb_sym, Hc, (IH Hs). reflexivity.
Qed.

Lemma split_at_first_sep (a b : string) (sep : ascii) :
  Js.includes a (String sep "") = false ->
  Js.split (a ++ String sep b) sep = a :: Js.split b sep.
Proof.
  induction a as [|c a IH]; intros H.
  - cbn [append Js.split]. now rewrite Ascii.eqb_refl.
  - rewrite includes_char_cons, orb_false_iff in H. destruct H as [Hc Ha].
    cbn [append Js.split]. rewrite Ascii.eqb_sym, Hc, (IH Ha). reflexivity.
Qed.

Lemma first_sep (s : string) (sep : ascii) :
  Js.includes s (String sep "") = true ->
  exists a b, s = a ++ String sep b /\ Js.includes a (String sep "") = false.
Proof.
  induction s as [|c s IH]; [discriminate|].
  rewrite includes_char_cons. destruct (Ascii.eqb sep c) eqn:E.
  - intros _. apply Ascii.eqb_eq in E as ->. exists "", s. split; reflexivity.
  - simpl. intros H. destruct (IH H) as (a & b & -> & Ha).
    exists (String c a), b. split; [reflexivity|].
    rewrite includes_char_cons, E, Ha. reflexivity.
Qed.

(** The second piece of a string with a separator: what stands between its
    first separator and the next one, or the end. *)
Lemma split_second_piece (a p rest : string) (sep : ascii) :
  Js.includes a (String sep "") = false ->
  Js.includes p (String sep "") = false ->
  nth_error (Js.split (a ++ String sep p) sep) 1 = Some p /\
  nth_error (Js.split (a ++ String sep (p ++ String sep rest)) sep) 1 = Some p.
Proof.
  intros Ha Hp. split.
  - rewrite (split_at_first_sep _ _ _ Ha), (split_without_sep _ _ Hp). reflexivity.
  - rewrite (split_at_first_sep _ _ _ Ha), (split_at_first_sep _ _ _ Hp). reflexivity.
Qed.

Lemma removeWhiteSpace_app (a b : string) :
  Js.removeWhiteSpace (a ++ b) = Js.removeWhiteSpace a ++ Js.removeWhiteSpace b.
Proof.
  induction a as [|c a IH]; simpl; [reflexivity|].
  destruct (Js.isWhiteSpace c); simpl; congruence.
Qed.

Lemma removeWhiteSpace_clean (s : string) :
  forall a c b, Js.removeWhiteSpace s = a ++ String c b -> Js.isWhiteSpace c = false.
Proof.
  induction s as [|d s IH]; simpl; intros a c b H.
  - destruct a; discriminate.
  - destruct (Js.isWhiteSpace d) eqn:E; [eauto|].
    destruct a as [|a0 a]; simpl in H; injection H as -> H; eauto.
Qed.

Lemma trimEnd_empty_iff (s : string) :
  Js.trimEnd s = "" <-> whitespace_only s = true.
Proof.
  induction s as [|c s IH]; simpl; [tauto|].
  rewrite andb_true_iff, <- IH.
  destruct (Js.trimEnd s); destruct (Js.isWhiteSpace c); split;
    try tauto; try discriminate; intros [? ?]; discriminate.
Qed.

Lemma trimStart_cases (s : string) :
  (Js.trimStart s = "" /\ whitespace_only s = true)
  \/ (exists c t, Js.trimStart s = String c t /\ Js.isWhiteSpace c = false
                  /\ whitespace_only s = false).
Proof.
  induction s as [|c s IH]; simpl; [left; auto|].
  destruct (Js.isWhiteSpace c) eqn:E; simpl; [exact IH|].
  right. exists c, s. auto.
Qed.

Lemma trim_empty_iff (s : string) :
  Js.trim s = "" <-> whitespace_only s = true.
Proof.
  unfold Js.trim. rewrite trimEnd_empty_iff.
  destruct (trimStart_cases s) as [[E W] | (c & t & E & Hc & W)]; rewrite E, W.
  - simpl. tauto.
  - simpl. rewrite Hc. simpl. tauto.
Qed.

(** [trim] removes a prefix and a suffix of white space, and what remains
    neither begins nor ends with white space. *)
Lemma trimStart_split (s : string) :
  exists pre, s = pre ++ Js.trimStart s /\ whitespace_only pre = true.
Proof.
  induction s as [|c s (pre & IH & Hpre)]; [exists ""; auto|].
  simpl. destruct (Js.isWhiteSpace c) eqn:E.
  - exists (String c pre). simpl. rewrite E, Hpre. split; [congruence | reflexivity].
  - exists "". auto.
Qed.

Lemma trimEnd_split (s : string) :
  exists post, s = Js.trimEnd s ++ post /\ whitespace_only post = true.
Proof.
  induction s as [|c s (post & IH & Hpost)]; [exists ""; auto|].
  simpl. destruct (Js.trimEnd s) as [|d t].
  - simpl in IH. subst post. destruct (Js.isWhiteSpace c) eqn:E.
    + exists (String c s). simpl. rewrite E, Hpost. auto.
    + exists s. auto.
  - exists post. simpl in *. split; [congruence | assumption].
Qed.

Lemma trimEnd_last (s : string) :
  forall t c, Js.trimEnd s = t ++ String c "" -> Js.isWhiteSpace c = false.
Proof.
  induction s as [|d s IH]; simpl; intros t c H.
  - destruct t; discriminate.
  - destruct (Js.trimEnd s) as [|e u].
    + destruct (Js.isWhiteSpace d) eqn:E; [destruct t; discriminate|].
      destruct t as [|x [|y t]]; try discriminate. now injection H as <-.
    + destruct t as [|x t]; [discriminate|]. injection H as _ H.
      exact (IH t c H).
Qed.

Lemma trimEnd_head (c : ascii) (s : string) :
  Js.isWhiteSpace c = false -> exists t, Js.trimEnd (String c s) = String c t.
Proof.
  intros H. simpl. destruct (Js.trimEnd s); rewrite ?H; eauto.
Qed.

Lemma trim_spec (s : string) :
  (exists pre post,
      s = pre ++ Js.trim s ++ post
      /\ whitespace_only pre = true /\ whitespace_only post = true)
  /\ (forall c t, Js.trim s = String c t -> Js.isWhiteSpace c = false)
  /\ (forall t c, Js.trim s = t ++ String c "" -> Js.isWhiteSpace c = false).
Proof.
  unfold Js.trim. split; [|split].
  - destruct (trimStart_split s) as (pre & Hs & Hpre).
    destruct (trimEnd_split (Js.trimStart s)) as (post & Ht & Hpost).
    exists pre, post. rewrite <- Ht. auto.
  - intros c t H.
    destruct (trimStart_cases s) as [[E _] | (d & u & E & Hd & _)];
      rewrite E in H; [discriminate|].
    destruct (trimEnd_head d u Hd) as [t' E']. congruence.
  - apply trimEnd_last.
Qed.

(** [split] cuts at every separator and loses nothing else. *)
Lemma split_pieces (s : string) (sep : ascii) :
  Forall (fun piece => Js.includes piece (String sep "") = false) (Js.split s sep).
Proof.
  induction s as [|c s IH]; simpl; [repeat constructor|].
  destruct (Ascii.eqb c sep) eqn:E; [constructor; [reflexivity | exact IH]|].
  destruct (Js.split s sep) as [|piece pieces]; [repeat constructor|].
  - rewrite includes_char_cons, Ascii.eqb_sym, E. reflexivity.
  - inversion IH as [|? ? Hp Hps]; subst. constructor; [|exact Hps].
    rewrite includes_char_cons, Ascii.eqb_sym, E. exact Hp.
Qed.

Lemma split_join (s : string) (sep : ascii) :
  String.concat (String sep "") (Js.split s sep) = s.
Proof.
  induction s as [|c s IH]; [reflexivity|]. cbn [Js.split].
  destruct (Ascii.eqb c sep) eqn:E.
  - apply Ascii.eqb_eq in E as ->.
    pose proof (split_not_nil s sep) as Hn.
    destruct (Js.split s sep) as [|piece pieces]; [congruence|].
    cbn [String.concat append] in *. now rewrite IH.
  - pose proof (split_not_nil s sep) as Hn.
    destruct (Js.split s sep) as [|piece pieces]; [congruence|].
    destruct pieces as [|piece' pieces]; cbn [String.concat append] in *;
      now rewrite <- IH.
Qed.

End StringFacts.

(** ** Case-insensitive search *)

Section CaseFacts.

Local Open Scope string_scope.

Lemma code_inj (c k : ascii) : Js.code c = Js.code k -> c = k.
Proof.
  unfold Js.code. intros H.
  rewrite <- (ascii_N_embedding c), <- (ascii_N_embedding k). now rewrite H.
Qed.

Lemma code_bounded (c : ascii) : (Js.code c < 256)%N.
Proof. apply N_ascii_bounded. Qed.

Lemma code_toLowerChar (c : ascii) :
  Js.code (Js.toLowerChar c) =
  if ((65 <=? Js.code c) && (Js.code c <=? 90)
      || (192 <=? Js.code c) && (Js.code c <=? 214)
      || (216 <=? Js.code c) && (Js.code c <=? 222))%N
  then (Js.code c + 32)%N else Js.code c.
Proof.
  unfold Js.toLowerChar. cbv zeta.
  pose proof (code_bounded c) as B.
  set (n := Js.code c) in *.
  destruct ((65 <=? n) && (n <=? 90) || (192 <=? n) && (n <=? 214)
            || (216 <=? n) && (n <=? 222))%N eqn:E; [|reflexivity].
  unfold Js.code. apply N_ascii_embedding.
  revert E. split_comparisons; simpl; intros E; try discriminate; lia.
Qed.

Lemma toLowerChar_plain (c k : ascii) :
  (Js.code k < 128)%N -> ~ (65 <= Js.code k <= 90)%N ->
  Js.toLowerChar c = k <-> CaseVariant c k.
Proof.
  intros Hk Hu. unfold CaseVariant.
  assert (Js.toLowerChar c = k <-> Js.code (Js.toLowerChar c) = Js.code k) as ->
    by (split; [now intros -> | apply code_inj]).
  assert (c = k <-> Js.code c = Js.code k) as ->
    by (split; [now intros -> | apply code_inj]).
  rewrite code_toLowerChar.
  pose proof (code_bounded c) as B.
  split_comparisons; simpl; lia.
Qed.

Lemma toLowerCase_plain (kw : string) :
  plain_keyword kw = true ->
  forall mid, Js.toLowerCase mid = kw <-> SameIgnoringCase mid kw.
Proof.
  induction kw as [|k kw IH]; simpl; intros P mid.
  - split.
    + destruct mid; [constructor | discriminate].
    + inversion 1. reflexivity.
  - apply andb_true_iff in P as [Pk P].
    assert ((Js.code k < 128)%N /\ ~ (65 <= Js.code k <= 90)%N) as [Hk Hu].
    { revert Pk. split_comparisons; simpl; intros; try discriminate; lia. }
    split.
    + destruct mid as [|c mid]; [discriminate|]. simpl. intros H.
      injection H as Hc Hm. constructor.
      * now apply toLowerChar_plain.
      * now apply IH.
    + inversion 1 as [|c k' s kw' Hc Hs]; subst. simpl. f_equal.
      * now apply toLowerChar_plain.
      * now apply IH.
Qed.

Lemma toLowerCase_app (a b : string) :
  Js.toLowerCase (a ++ b) = Js.toLowerCase a ++ Js.toLowerCase b.
Proof. induction a; simpl; congruence. Qed.

Lemma toLowerCase_app_inv (x y : string) :
  forall s, Js.toLowerCase s = x ++ y ->
  exists s1 s2, s = s1 ++ s2 /\ Js.toLowerCase s1 = x /\ Js.toLowerCase s2 = y.
Proof.
  induction x as [|c x IH]; simpl; intros s H.
  - exists "", s. auto.
  - destruct s as [|d s]; [discriminate|]. simpl in H. injection H as Hd H.
    destruct (IH s H) as (s1 & s2 & -> & H1 & H2).
    exists (String d s1), s2. simpl. repeat split; congruence.
Qed.

(** [msg.toLowerCase().includes(kw)] decides whether [msg] contains the
    keyword [kw] case-insensitively. *)
Lemma includes_toLowerCase (msg kw : string) :
  plain_keyword kw = true ->
  Js.includes (Js.toLowerCase msg) kw = true <-> ContainsIgnoringCase msg kw.
Proof.
  intros P. rewrite includes_iff. unfold ContainsIgnoringCase. split.
  - intros (a & b & H).
    apply toLowerCase_app_inv in H as (pre & rest & -> & _ & H).
    apply toLowerCase_app_inv in H as (mid & post & -> & H & _).
    exists pre, mid, post. split; [reflexivity|]. now apply toLowerCase_plain.
  - intros (pre & mid & post & -> & H).
    apply (toLowerCase_plain kw P) in H.
    exists (Js.toLowerCase pre), (Js.toLowerCase post).
    now rewrite !toLowerCase_app, H.
Qed.

End CaseFacts.

(** ** The assembly of [contents] *)

Section Assembly.

Lemma includes_char_app (a b : string) (c : ascii) :
  Js.includes (a ++ b)%string (String c "") =
  Js.includes a (String c "") || Js.includes b (String c "").
Proof.
  induction a as [|d a IH].
  - simpl. destruct b; reflexivity.
  - cbn [append]. rewrite !includes_char_cons, IH. now rewrite orb_assoc.
Qed.

Lemma kept_piece_cases (raw : string) :
  (comma_free raw /\ kept_piece raw = Some raw)
  \/ (exists a p,
         comma_free a /\ comma_free p /\ kept_piece raw = Some p
         /\ (raw = (a ++ "," ++ p)%string
             \/ exists rest, raw = (a ++ "," ++ p ++ "," ++ rest)%string)).
Proof.
  unfold kept_piece, comma_free.
  destruct (Js.includes raw ",") eqn:E; [right | left; auto].
  destruct (first_sep _ _ E) as (a & b & -> & Ha).
  destruct (Js.includes b ",") eqn:Eb.
  - destruct (first_sep _ _ Eb) as (p & rest & -> & Hp).
    exists a, p. repeat split; try assumption.
    + apply (split_second_piece a p rest "," Ha Hp).
    + right. exists rest. reflexivity.
  - exists a, b. repeat split; try assumption.
    + apply (split_second_piece a b "" "," Ha Eb).
    + left. reflexivity.
Qed.

Lemma kept_piece_total (raw : string) : exists p, kept_piece raw = Some p.
Proof.
  destruct (kept_piece_cases raw) as [[_ H] | (a & p & _ & _ & H & _)]; eauto.
Qed.

(** The piece kept of a data URL whose media type and payload have no comma
    is the payload. *)
Lemma kept_piece_data_url (raw mime payload : string) :
  DataUrl raw mime payload -> comma_free mime -> comma_free payload ->
  kept_piece raw = Some payload.
Proof.
  unfold DataUrl, comma_free. intros -> Hm Hp.
  assert (Js.includes ("data:" ++ mime ++ ";base64")%string "," = false) as Ha.
  { rewrite !includes_char_app, Hm. reflexivity. }
  assert (("data:" ++ mime ++ ";base64," ++ payload)%string
          = (("data:" ++ mime ++ ";base64") ++ String "," payload)%string) as ->.
  { simpl. do 5 f_equal. rewrite append_assoc. reflexivity. }
  unfold kept_piece.
  rewrite includes_char_app, orb_true_r by exact ",".
  apply (split_second_piece _ payload "" "," Ha Hp).
Qed.

(** What [process_file] does, by cases on the file. *)
Lemma process_file_eq (contents : list Part) (file : File) :
  process_file contents file =
  match type file, data file with
  | Some mimeType, Some raw =>
      if Js.startsWith mimeType "image/" then
        match raw, option_map Js.removeWhiteSpace (kept_piece raw) with
        | String _ _, Some ((String _ _) as cleaned) =>
            contents ++ [InlineData cleaned mimeType]
        | _, _ => contents
        end
      else contents
  | _, _ => contents
  end.
Proof.
  unfold process_file, kept_piece.
  destruct (type file) as [[|c mimeType]|].
  - cbn. destruct (data file); reflexivity.
  - cbn [Js.truthy negb].
    destruct (Js.startsWith (String c mimeType) "image/");
      destruct (data file) as [[|d raw]|]; reflexivity.
  - reflexivity.
Qed.

Lemma process_file_app (contents : list Part) (file : File) :
  process_file contents file = contents ++ process_file [] file.
Proof.
  rewrite !process_file_eq.
  destruct (type file) as [mimeType|], (data file) as [raw|];
    rewrite ?app_nil_r; try reflexivity.
  destruct (Js.startsWith mimeType "image/"); rewrite ?app_nil_r; try reflexivity.
  destruct raw; rewrite ?app_nil_r; try reflexivity.
  destruct (option_map _ _) as [[|]|]; rewrite ?app_nil_r; reflexivity.
Qed.

Lemma fold_process_file (fs : list File) (contents : list Part) :
  fold_left process_file fs contents = contents ++ flat_map (process_file []) fs.
Proof.
  revert contents; induction fs as [|f fs IH]; intros contents; simpl.
  - now rewrite app_nil_r.
  - rewrite IH, process_file_app, app_assoc. reflexivity.
Qed.

(** A file contributes nothing or one image part. *)
Lemma process_file_emits (file : File) (p : Part) :
  In p (process_file [] file) ->
  exists mimeType raw piece,
    type file = Some mimeType /\ Js.startsWith mimeType "image/" = true
    /\ data file = Some raw /\ raw <> "" /\ kept_piece raw = Some piece
    /\ Js.removeWhiteSpace piece <> ""
    /\ process_file [] file = [InlineData (Js.removeWhiteSpace piece) mimeType]
    /\ p = InlineData (Js.removeWhiteSpace piece) mimeType.
Proof.
  rewrite process_file_eq.
  destruct (type file) as [mimeType|]; [|contradiction].
  destruct (data file) as [raw|]; [|contradiction].
  destruct (Js.startsWith mimeType "image/") eqn:Et; [|contradiction].
  destruct raw as [|d raw]; [contradiction|].
  destruct (kept_piece (String d raw)) as [piece|] eqn:Ep; [|contradiction].
  cbn [option_map].
  destruct (Js.removeWhiteSpace piece) as [|c cleaned] eqn:Ec; [contradiction|].
  cbn [app]. intros [<- | []].
  exists mimeType, (String d raw), piece. rewrite Ec.
  repeat split; try reflexivity; try assumption; discriminate.
Qed.

Lemma image_parts_are_images (body : Body) :
  forallb is_image (image_parts body) = true.
Proof.
  apply forallb_forall. intros p Hp. unfold image_parts in Hp.
  destruct (files body) as [fs|]; [|contradiction].
  apply in_flat_map in Hp as (f & _ & Hf).
  apply process_file_emits in Hf as (m & raw & piece & H).
  decompose [and] H. subst p. reflexivity.
Qed.

(** [contents] after the loop over the files. *)
Lemma contents_after_files (body : Body) :
  match files body with
  | Some ((_ :: _) as fs) => fold_left process_file fs []
  | _ => []
  end = image_parts body.
Proof.
  unfold image_parts. destruct (files body) as [[|f fs]|]; try reflexivity.
  now rewrite fold_process_file.
Qed.

Lemma build_contents_eq (body : Body) :
  build_contents body =
  image_parts body ++
  match effective_prompt (message body) (image_parts body) with
  | Some p => [Text p]
  | None => []
  end.
Proof.
  unfold build_contents. cbv zeta. rewrite contents_after_files.
  unfold effective_prompt, Js.or_else.
  destruct (message body) as [m|]; cbn [option_map Js.truthy].
  - destruct (Js.trim m) as [|c t]; cbn [Js.truthy].
    + destruct (image_parts body); simpl; now rewrite ?app_nil_r.
    + destruct (image_parts body); reflexivity.
  - destruct (image_parts body); simpl; now rewrite ?app_nil_r.
Qed.

End Assembly.

(** ** The fallback loop *)

Section Dispatch.

Variable up : Upstream.
Variable contents : list Part.

Lemma calls_made_app (tr1 tr2 : Trace) :
  calls_made (tr1 ++ tr2) = (calls_made tr1 + calls_made tr2)%nat.
Proof. unfold calls_made. now rewrite filter_app, length_app. Qed.

Lemma calls_made_attempt_events (attempt : nat) (model : string) :
  calls_made (attempt_events contents attempt model) = 1%nat.
Proof. unfold attempt_events. destruct (0 <? attempt)%nat; reflexivity. Qed.

(** One iteration, from a trace with [attempt] calls. *)
Lemma iteration_run (attempt : nat) (model : string)
    (lastError : option ApiError) (tr : Trace) :
  calls_made tr = attempt ->
  iteration up contents attempt model lastError tr =
  (Value match attempt_outcome (up attempt model contents) with
         | inl t => (FlowReturn (Response_json (JsonResponse t) None), lastError)
         | inr e =>
             (if is_client_error (status e) then FlowBreak else FlowNext, Some e)
         end,
   tr ++ attempt_events contents attempt model).
Proof.
  intros Hc.
  assert (forall pre, calls_made pre = attempt ->
            try_catch
              (response <- generateContent up model contents FORMATTING_INSTRUCTION ;;
               match text response with
               | Some ((String _ _) as t) =>
                   ret (FlowReturn (Response_json (JsonResponse t) None), lastError)
               | _ => throw (Error "No text response received from API")
               end)
              (fun apiError =>
                 if is_client_error (status apiError)
                 then ret (FlowBreak, Some apiError)
                 else ret (FlowNext, Some apiError)) pre =
            (Value match attempt_outcome (up attempt model contents) with
                   | inl t =>
                       (FlowReturn (Response_json (JsonResponse t) None), lastError)
                   | inr e =>
                       (if is_client_error (status e) then FlowBreak else FlowNext,
                        Some e)
                   end,
             pre ++ [EvGenerate model contents FORMATTING_INSTRUCTION])) as Hcall.
  { intros pre Hpre. unfold try_catch, bind, generateContent. rewrite Hpre.
    destruct (up attempt model contents) as [[[[|c t]|]]|e]; cbn;
      unfold ret, throw; cbn;
      try reflexivity;
      match goal with |- context [is_client_error ?s] =>
        destruct (is_client_error s) end; reflexivity. }
  unfold iteration, attempt_events.
  destruct (0 <? attempt)%nat.
  - specialize (Hcall (tr ++ [EvDelay (RETRY_DELAY * Z.of_nat attempt)])).
    rewrite calls_made_app, Hc, Nat.add_0_r in Hcall. specialize (Hcall eq_refl).
    rewrite <- app_assoc in Hcall. rewrite <- Hcall.
    unfold try_catch, bind, delay. reflexivity.
  - specialize (Hcall tr Hc). cbn [app]. rewrite <- Hcall.
    unfold try_catch, bind, ret. reflexivity.
Qed.

(** The loop follows the state machine. *)
Lemma retry_loop_run (models : list string) :
  forall (attempt : nat) (lastError : option ApiError) (tr : Trace),
    calls_made tr = attempt ->
    exists r n,
      Run up contents attempt models lastError r n
      /\ retry_loop up contents attempt models lastError tr
         = (Value r, tr ++ schedule contents attempt (firstn n models)).
Proof.
  induction models as [|model models IH]; intros attempt lastError tr Hc.
  - exists (inr lastError), 0%nat. split; [constructor|].
    cbn. unfold ret. now rewrite app_nil_r.
  - cbn [retry_loop]. unfold bind. rewrite (iteration_run _ _ _ _ Hc).
    destruct (attempt_outcome (up attempt model contents)) as [t|e] eqn:Eo.
    + exists (inl (Response_json (JsonResponse t) None)), 1%nat.
      split; [now constructor|]. cbn. unfold ret. now rewrite app_nil_r.
    + destruct (is_client_error (status e)) eqn:Es.
      * exists (inr (Some e)), 1%nat.
        split; [now constructor|]. cbn. unfold ret. now rewrite app_nil_r.
      * destruct (IH (S attempt) (Some e) (tr ++ attempt_events contents attempt model))
          as (r & n & HR & Hrun).
        { rewrite calls_made_app, calls_made_attempt_events, Hc. lia. }
        exists r, (S n). split; [econstructor; eassumption|].
        rewrite Hrun. cbn [firstn schedule]. now rewrite <- app_assoc.
Qed.

Lemma Run_attempts_le attempt models lastError r n :
  Run up contents attempt models lastError r n -> (n <= List.length models)%nat.
Proof. induction 1; simpl; lia. Qed.

Lemma Run_attempts_pos attempt models lastError r n :
  Run up contents attempt models lastError r n -> models <> [] -> (1 <= n)%nat.
Proof. induction 1; intros; try lia; congruence. Qed.

(** Every attempt but the last one failed without a client error. *)
Lemma Run_earlier_attempts attempt models lastError r n :
  Run up contents attempt models lastError r n ->
  forall j, (S j < n)%nat ->
    exists e,
      attempt_outcome (up (attempt + j)%nat (nth j models "") contents) = inr e
      /\ is_client_error (status e) = false.
Proof.
  induction 1 as [| | |attempt model models lastError e r n Ho Hs HR IH];
    intros j Hj; try lia.
  destruct j as [|j].
  - rewrite Nat.add_0_r. exists e. auto.
  - cbn [nth]. replace (attempt + S j)%nat with (S attempt + j)%nat by lia.
    apply IH. lia.
Qed.

Lemma Run_no_attempt attempt models lastError r :
  Run up contents attempt models lastError r 0 -> models = [] /\ r = inr lastError.
Proof. inversion 1; auto. Qed.

(** The last attempt decides the result. *)
Lemma Run_last_attempt attempt models lastError r n :
  Run up contents attempt models lastError r n ->
  forall m, n = S m ->
    match attempt_outcome (up (attempt + m)%nat (nth m models "") contents) with
    | inl t => r = inl (Response_json (JsonResponse t) None)
    | inr e =>
        r = inr (Some e)
        /\ (is_client_error (status e) = true \/ n = List.length models)
    end.
Proof.
  induction 1 as [|attempt model models lastError t Ho
                  |attempt model models lastError e Ho Hs
                  |attempt model models lastError e r n Ho Hs HR IH];
    intros m Hm; try discriminate.
  - injection Hm as <-. rewrite Nat.add_0_r. cbn [nth]. now rewrite Ho.
  - injection Hm as <-. rewrite Nat.add_0_r. cbn [nth]. rewrite Ho. auto.
  - injection Hm as ->. destruct m as [|m].
    + apply Run_no_attempt in HR as [-> ->].
      rewrite Nat.add_0_r. cbn [nth]. rewrite Ho. auto.
    + specialize (IH m eq_refl). cbn [nth].
      replace (attempt + S m)%nat with (S attempt + m)%nat by lia.
      destruct (attempt_outcome (up (S attempt + m)%nat (nth m models "") contents));
        [exact IH|].
      destruct IH as [-> [H | H]]; split; auto. right. simpl. lia.
Qed.

Lemma models_called_app (tr1 tr2 : Trace) :
  models_called (tr1 ++ tr2) = models_called tr1 ++ models_called tr2.
Proof.
  induction tr1 as [|[ms|m c i] tr1 IH]; simpl; [reflexivity|exact IH|].
  now rewrite IH.
Qed.

Lemma models_called_schedule (models : list string) :
  forall attempt, models_called (schedule contents attempt models) = models.
Proof.
  induction models as [|model models IH]; intros attempt; [reflexivity|].
  cbn [schedule]. rewrite models_called_app, IH.
  unfold attempt_events. destruct (0 <? attempt)%nat; reflexivity.
Qed.

Lemma calls_made_schedule (models : list string) :
  forall attempt, calls_made (schedule contents attempt models) = List.length models.
Proof.
  induction models as [|model models IH]; intros attempt; [reflexivity|].
  cbn [schedule]. rewrite calls_made_app, IH, calls_made_attempt_events. reflexivity.
Qed.

(** The schedule of the loop is the trace the specification describes. *)
Lemma schedule_expected (models : list string) :
  forall attempt,
    schedule contents attempt models =
    match models with
    | [] => []
    | _ :: _ =>
        (if (0 <? attempt)%nat then [EvDelay (1000 * Z.of_nat attempt)] else [])
        ++ expected_trace contents attempt models
    end.
Proof.
  induction models as [|model models IH]; intros attempt; [reflexivity|].
  cbn [schedule expected_trace]. rewrite IH. unfold attempt_events, RETRY_DELAY.
  rewrite <- app_assoc. f_equal. cbn [app]. f_equal.
  destruct models; [reflexivity|]. cbn [Nat.ltb Nat.leb app].
  do 2 f_equal. lia.
Qed.

Lemma delays_expected_trace (models : list string) :
  forall i,
    delays (expected_trace contents i models) =
    map (fun j => 1000 * (Z.of_nat j + 1)) (seq i (List.length models - 1)).
Proof.
  induction models as [|model models IH]; intros i; [reflexivity|].
  cbn [expected_trace delays]. destruct models as [|model' models]; [reflexivity|].
  cbn [delays]. rewrite IH. cbn [List.length].
  change 1%nat with (S 0). rewrite !Nat.sub_succ, !Nat.sub_0_r. reflexivity.
Qed.

Lemma backoff_increasing (n i : nat) :
  StronglySorted Z.lt (map (fun j => 1000 * (Z.of_nat j + 1)) (seq i n)).
Proof.
  revert i; induction n as [|n IH]; intros i; cbn [seq map]; constructor.
  - apply IH.
  - apply Forall_forall. intros x Hx.
    apply in_map_iff in Hx as (j & <- & Hj). apply in_seq in Hj. cbv beta. lia.
Qed.

End Dispatch.

(** ** The handler *)

Section Handler.

Variable models : list string.
Variable up : Upstream.

(** The loop and the classification never throw. *)
Lemma dispatch_run (contents : list Part) :
  exists r n,
    Run up contents 0 models None r n
    /\ dispatch up models contents []
       = (Value match r with
                | inl resp => resp
                | inr lastError => failure_response lastError
                end,
          schedule contents 0 (firstn n models)).
Proof.
  destruct (retry_loop_run up contents models 0%nat None [] eq_refl)
    as (r & n & HR & Hrun).
  exists r, n. split; [exact HR|].
  unfold dispatch, bind. rewrite Hrun. destruct r; reflexivity.
Qed.

(** A configured handler given a body with contents runs the dispatcher. *)
Lemma POST_with_dispatch (request : Request) (body : Body) :
  Js.truthy (GEMINI_API_KEY request) = true ->
  request_json request = Some body ->
  build_contents body <> [] ->
  POST_with models up request [] = dispatch up models (build_contents body) [].
Proof.
  intros Hk Hb Hc. unfold POST_with, try_catch. rewrite Hk, Hb. cbn [negb].
  destruct (build_contents body) as [|p ps] eqn:E; [congruence|].
  cbn [List.length Nat.eqb]. rewrite <- E.
  destruct (dispatch_run (build_contents body)) as (r & n & _ & ->). reflexivity.
Qed.

Lemma POST_with_run (request : Request) (body : Body) :
  Js.truthy (GEMINI_API_KEY request) = true ->
  request_json request = Some body ->
  build_contents body <> [] ->
  exists r n,
    Run up (build_contents body) 0 models None r n
    /\ POST_with models up request []
       = (Value match r with
                | inl resp => resp
                | inr lastError => failure_response lastError
                end,
          schedule (build_contents body) 0 (firstn n models)).
Proof.
  intros Hk Hb Hc. rewrite (POST_with_dispatch _ _ Hk Hb Hc). apply dispatch_run.
Qed.

End Handler.

(** ** Retry and stop *)

Lemma is_client_error_iff (n : Z) :
  is_client_error (Some n) = true <-> 400 <= n < 500 /\ n <> 429 /\ n <> 404.
Proof.
  unfold is_client_error.
  rewrite !andb_true_iff, !negb_true_iff, Z.leb_le, Z.ltb_lt, !Z.eqb_neq. tauto.
Qed.

Lemma RetryableStatus_not_client_error (st : option Z) :
  RetryableStatus st -> is_client_error st = false.
Proof.
  destruct 1 as [n Hn| | |]; try reflexivity.
  destruct (is_client_error (Some n)) eqn:E; [|reflexivity].
  apply is_client_error_iff in E. lia.
Qed.

(** C1: the models are tried in the order of the list from index 0; after
    each retryable failure (a server error, no numeric status, 429 or 404)
    the next model is tried, and the text of the first successful attempt is
    the response, no later model being called.  Here the attempts of index
    below [k] fail retryably and the attempt of index [k] yields the text
    [t]: the handler answers [t] with status 200 after calling exactly the
    first [k + 1] models, in order. *)
Theorem first_success_is_returned
    (models : list string) (up : Upstream) (request : Request) (body : Body)
    (k : nat) (t : string) :
  Js.truthy (GEMINI_API_KEY request) = true ->
  request_json request = Some body ->
  build_contents body <> [] ->
  (k < List.length models)%nat ->
  (forall j, (j < k)%nat ->
     exists e,
       attempt_outcome (up j (nth j models "") (build_contents body)) = inr e
       /\ RetryableStatus (status e)) ->
  attempt_outcome (up k (nth k models "") (build_contents body)) = inl t ->
  let run := POST_with models up request [] in
  fst run = Value (mkResponse (JsonResponse t) 200)
  /\ models_called (snd run) = firstn (S k) models
  /\ calls_made (snd run) = S k.
Proof.
  intros Hk Hb Hc Hlt Hfail Hok run. subst run.
  destruct (POST_with_run models up request body Hk Hb Hc) as (r & n & HR & ->).
  cbn [fst snd].
  assert (n = S k) as ->.
  { destruct (Nat.lt_trichotomy n (S k)) as [Hn | [Hn | Hn]];
      [exfalso | exact Hn | exfalso].
    - destruct n as [|m].
      + apply Run_no_attempt in HR as [-> _]. simpl in Hlt. lia.
      + pose proof (Run_last_attempt _ _ _ _ _ _ _ HR m eq_refl) as HL.
        cbn [Nat.add] in HL.
        destruct (Hfail m) as (e & He & Hs); [lia|]. rewrite He in HL.
        destruct HL as [_ [HL | HL]]; [|lia].
        rewrite (RetryableStatus_not_client_error _ Hs) in HL. discriminate.
    - destruct (Run_earlier_attempts _ _ _ _ _ _ _ HR k Hn) as (e & He & _).
      cbn [Nat.add] in He. congruence. }
  pose proof (Run_last_attempt _ _ _ _ _ _ _ HR k eq_refl) as HL.
  cbn [Nat.add] in HL. rewrite Hok in HL. subst r.
  rewrite models_called_schedule, calls_made_schedule, length_firstn.
  repeat split; reflexivity || lia.
Qed.

(** C2: an attempt that fails with a status in [400, 500) other than 429
    and 404 is the last one: no further model is called and the response is
    the one classified from that error.  [k] is the index of any attempt
    made. *)
Theorem client_error_stops
    (models : list string) (up : Upstream) (request : Request) (body : Body)
    (k : nat) (e : ApiError) (n : Z) :
  Js.truthy (GEMINI_API_KEY request) = true ->
  request_json request = Some body ->
  build_contents body <> [] ->
  (k < calls_made (snd (POST_with models up request [])))%nat ->
  up k (nth k models "") (build_contents body) = Rejects e ->
  status e = Some n -> 400 <= n < 500 -> n <> 429 -> n <> 404 ->
  let run := POST_with models up request [] in
  calls_made (snd run) = S k
  /\ models_called (snd run) = firstn (S k) models
  /\ fst run = Value (failure_response (Some e)).
Proof.
  intros Hk Hb Hc Hmade He Hst Hr H429 H404 run. subst run.
  destruct (POST_with_run models up request body Hk Hb Hc) as (r & m & HR & Hrun).
  rewrite Hrun in *. cbn [fst snd] in *.
  pose proof (Run_attempts_le _ _ _ _ _ _ _ HR) as Hle.
  rewrite calls_made_schedule, length_firstn in *.
  rewrite models_called_schedule.
  assert (is_client_error (status e) = true) as Hce
    by (rewrite Hst; apply is_client_error_iff; auto).
  assert (m = S k) as ->.
  { destruct (Nat.lt_trichotomy m (S k)) as [Hn | [Hn | Hn]]; [lia | exact Hn |].
    destruct (Run_earlier_attempts _ _ _ _ _ _ _ HR k Hn) as (e' & He' & Hs').
    cbn [Nat.add] in He'. rewrite He in He'. cbn in He'. congruence. }
  pose proof (Run_last_attempt _ _ _ _ _ _ _ HR k eq_refl) as HL.
  cbn [Nat.add] in HL. rewrite He in HL. cbn in HL. destruct HL as [-> _].
  repeat split; reflexivity || lia.
Qed.

(** ** Classification of the last error *)

Lemma isRateLimitError_iff (msg : string) :
  isRateLimitError msg = true <->
  ContainsIgnoringCase msg "rate limit" \/ ContainsIgnoringCase msg "quota".
Proof.
  unfold isRateLimitError.
  rewrite orb_true_iff, !includes_toLowerCase by reflexivity. tauto.
Qed.

Lemma isAuthError_iff (msg : string) :
  isAuthError msg = true <->
  ContainsIgnoringCase msg "api key" \/ ContainsIgnoringCase msg "authentication".
Proof.
  unfold isAuthError.
  rewrite orb_true_iff, !includes_toLowerCase by reflexivity. tauto.
Qed.

Lemma errorMessage_of_message (e : ApiError) (m : string) :
  error_message e = Some m -> m <> EmptyString -> errorMessage (Some e) = m.
Proof.
  unfold errorMessage, Js.or_else. intros -> Hm.
  destruct m; [congruence | reflexivity].
Qed.

(** For an error without a nested message, the message classified is the
    message logged for the attempt. *)
Lemma errorMessage_is_attempt_message (e : ApiError) :
  Js.truthy (nested_message e) = false -> errorMessage (Some e) = attempt_message e.
Proof.
  unfold errorMessage, attempt_message, Js.or_else. intros ->. reflexivity.
Qed.

Lemma failure_response_spec (lastError : option ApiError) :
  let msg := errorMessage lastError in
  let resp := failure_response lastError in
  (exists err, json resp = JsonError err (Some msg))
  /\ (ContainsIgnoringCase msg "rate limit" \/ ContainsIgnoringCase msg "quota" ->
      http_status resp = 429)
  /\ (~ (ContainsIgnoringCase msg "rate limit" \/ ContainsIgnoringCase msg "quota") ->
      ContainsIgnoringCase msg "api key" \/ ContainsIgnoringCase msg "authentication" ->
      http_status resp = 401)
  /\ (~ (ContainsIgnoringCase msg "rate limit" \/ ContainsIgnoringCase msg "quota") ->
      ~ (ContainsIgnoringCase msg "api key" \/ ContainsIgnoringCase msg "authentication") ->
      http_status resp = 500).
Proof.
  cbv zeta. unfold failure_response.
  rewrite <- isRateLimitError_iff, <- isAuthError_iff.
  destruct (isRateLimitError (errorMessage lastError));
    [|destruct (isAuthError (errorMessage lastError))];
    cbn; repeat split; eauto; congruence.
Qed.

Lemma Run_response (up : Upstream) (contents : list Part)
    attempt models lastError resp n :
  Run up contents attempt models lastError (inl resp) n ->
  exists c t, resp = mkResponse (JsonResponse (String c t)) 200.
Proof.
  intros H. remember (inl resp) as r eqn:Er. revert Er.
  induction H as [|attempt model models lastError t Ho| |]; intros Er;
    try discriminate; auto.
  injection Er as <-. unfold attempt_outcome in Ho.
  destruct (up attempt model contents) as [[[[|c s]|]]|]; try discriminate.
  injection Ho as <-. exists c, s. reflexivity.
Qed.

(** What the classification does (lines 164-202): when the attempts have
    all failed, by exhaustion or by an early stop, the response is
    classified from the error of the last attempt made, and from nothing
    else, through [errorMessage]: 429 if it contains "rate limit" or
    "quota" case-insensitively; otherwise 401 if it contains "api key" or
    "authentication"; otherwise 500; [details] is [errorMessage].  That is
    the [message] property of the error, or "Unknown error" when the error
    has none; it is the message of the attempt (lines 147-148) only for an
    error without a nested [error.message]. *)
Theorem failure_is_classified_by_top_level_message
    (models : list string) (up : Upstream) (request : Request) (body : Body)
    (resp : Response) (err : string) (details : option string) :
  Js.truthy (GEMINI_API_KEY request) = true ->
  request_json request = Some body ->
  build_contents body <> [] ->
  models <> [] ->
  fst (POST_with models up request []) = Value resp ->
  json resp = JsonError err details ->
  let n := calls_made (snd (POST_with models up request [])) in
  exists e,
    (1 <= n)%nat
    /\ attempt_outcome (up (n - 1)%nat (nth (n - 1) models "") (build_contents body))
       = inr e
    /\ resp = failure_response (Some e)
    /\ (forall m, error_message e = Some m -> m <> EmptyString ->
                  errorMessage (Some e) = m)
    /\ (Js.truthy (nested_message e) = false ->
        errorMessage (Some e) = attempt_message e)
    /\ let msg := errorMessage (Some e) in
       details = Some msg
       /\ (ContainsIgnoringCase msg "rate limit" \/ ContainsIgnoringCase msg "quota" ->
           http_status resp = 429)
       /\ (~ (ContainsIgnoringCase msg "rate limit" \/ ContainsIgnoringCase msg "quota") ->
           ContainsIgnoringCase msg "api key"
           \/ ContainsIgnoringCase msg "authentication" ->
           http_status resp = 401)
       /\ (~ (ContainsIgnoringCase msg "rate limit" \/ ContainsIgnoringCase msg "quota") ->
           ~ (ContainsIgnoringCase msg "api key"
              \/ ContainsIgnoringCase msg "authentication") ->
           http_status resp = 500).
Proof.
  intros Hk Hb Hc Hm Hresp Hjson n. subst n.
  destruct (POST_with_run models up request body Hk Hb Hc) as (r & n & HR & Hrun).
  rewrite Hrun in *. cbn [fst snd] in *.
  pose proof (Run_attempts_le _ _ _ _ _ _ _ HR) as Hle.
  pose proof (Run_attempts_pos _ _ _ _ _ _ _ HR Hm) as Hpos.
  rewrite calls_made_schedule, length_firstn, Nat.min_l by exact Hle.
  injection Hresp as Hresp.
  destruct n as [|m]; [lia|]. cbn [Nat.sub]. rewrite Nat.sub_0_r.
  pose proof (Run_last_attempt _ _ _ _ _ _ _ HR m eq_refl) as HL.
  cbn [Nat.add] in HL.
  destruct (attempt_outcome (up m (nth m models "") (build_contents body)))
    as [t|e] eqn:Eo.
  - subst r. apply Run_response in HR as (c & t' & HR).
    rewrite <- Hresp, HR in Hjson. discriminate.
  - destruct HL as [-> _]. exists e.
    split; [lia|]. split; [reflexivity|]. split; [now symmetry|].
    split; [apply errorMessage_of_message|].
    split; [apply errorMessage_is_attempt_message|].
    destruct (failure_response_spec (Some e)) as ([err' Hd] & H429 & H401 & H500).
    cbv zeta in *. rewrite <- Hresp.
    repeat split; try assumption.
    rewrite <- Hresp, Hd in Hjson. congruence.
Qed.

(** The message of an attempt whose error carries a nested [error.message]
    is that nested message (lines 147-148); the classification does not
    read it (line 167). *)
Lemma nested_message_is_lost (e : ApiError) (m : string) :
  nested_message e = Some m -> m <> EmptyString ->
  attempt_message e = m
  /\ (Js.truthy (error_message e) = false ->
      failure_response (Some e)
      = mkResponse
          (JsonError "Failed to generate response from API." (Some "Unknown error"))
          500).
Proof.
  intros Hn Hm. split.
  - unfold attempt_message, Js.or_else. rewrite Hn.
    destruct m; [congruence | reflexivity].
  - intros Ht.
    assert (errorMessage (Some e) = "Unknown error") as E.
    { unfold errorMessage, Js.or_else. rewrite Ht. reflexivity. }
    unfold failure_response. rewrite E. reflexivity.
Qed.

(** C3: the classification does not inspect the message of the last failing
    attempt when that message is nested.  The upstream rejects every call
    with status 429 and the message "Quota exceeded for this project" under
    [error], the error having no [message] of its own: the five models are
    called, the message of the last attempt (lines 147-148) is that text,
    which contains "quota"; yet the response is 500, "Failed to generate
    response from API.", with details "Unknown error" (line 167 reads
    [lastError?.message] only).  The same error with its message at the top
    level is answered 429 with the message as details. *)
Theorem nested_message_is_not_classified :
  models_called (snd (POST Scenario.up_nested_quota (Scenario.chat "Hi"))) = MODELS
  /\ attempt_outcome (Scenario.up_nested_quota 4%nat "gemma-3-27b-it" [Text "Hi"])
     = inr Scenario.nested_quota_error
  /\ attempt_message Scenario.nested_quota_error = "Quota exceeded for this project"
  /\ ContainsIgnoringCase (attempt_message Scenario.nested_quota_error) "quota"
  /\ fst (POST Scenario.up_nested_quota (Scenario.chat "Hi"))
     = Value (mkResponse
                (JsonError "Failed to generate response from API."
                           (Some "Unknown error"))
                500)
  /\ failure_response
       (Some (mkApiError (Some 429) (Some "Quota exceeded for this project") None))
     = mkResponse
         (JsonError "Rate limit exceeded. Please wait a moment and try again."
                    (Some "Quota exceeded for this project"))
         429.
Proof.
  destruct (nested_message_is_lost Scenario.nested_quota_error
              "Quota exceeded for this project" eq_refl ltac:(discriminate))
    as [Hm Hr].
  split; [vm_compute; reflexivity|]. split; [reflexivity|].
  split; [exact Hm|]. split.
  - rewrite Hm. apply (includes_toLowerCase _ "quota" eq_refl). reflexivity.
  - split; [|vm_compute; reflexivity].
    rewrite <- (Hr eq_refl). vm_compute. reflexivity.
Qed.

(** C10: a last message that matches both a rate-limit keyword and an
    authentication keyword is classified as rate limited: the status is 429
    and not 401. *)
Theorem rate_limit_takes_precedence (lastError : option ApiError) :
  let msg := errorMessage lastError in
  ContainsIgnoringCase msg "rate limit" \/ ContainsIgnoringCase msg "quota" ->
  ContainsIgnoringCase msg "api key" \/ ContainsIgnoringCase msg "authentication" ->
  http_status (failure_response lastError) = 429
  /\ http_status (failure_response lastError) <> 401.
Proof.
  intros msg Hrate _.
  destruct (failure_response_spec lastError) as (_ & H429 & _).
  rewrite (H429 Hrate). split; [reflexivity | discriminate].
Qed.

(** ** Backoff *)

Lemma schedule_from_zero (contents : list Part) (models : list string) :
  schedule contents 0 models = expected_trace contents 0 models.
Proof. rewrite schedule_expected. destruct models; reflexivity. Qed.

(** C4: the attempt of index 0 is made without a wait; before the attempt
    of index [i + 1] the dispatcher waits [RETRY_DELAY * (i + 1)] with
    [RETRY_DELAY = 1000], and nothing else happens between two attempts; the
    waits of a request are strictly increasing; with one model there is one
    attempt and no wait. *)
Theorem backoff_is_linear
    (up : Upstream) (models : list string) (contents : list Part) :
  let tr := snd (dispatch up models contents []) in
  RETRY_DELAY = 1000
  /\ (exists n,
        (n <= List.length models)%nat
        /\ (models = [] \/ 1 <= n)%nat
        /\ calls_made tr = n
        /\ tr = expected_trace contents 0 (firstn n models)
        /\ delays tr =
           map (fun i => RETRY_DELAY * (Z.of_nat i + 1)) (seq 0 (n - 1)))
  /\ StronglySorted Z.lt (delays tr)
  /\ (forall model,
        snd (dispatch up [model] contents [])
        = [EvGenerate model contents FORMATTING_INSTRUCTION]).
Proof.
  cbv zeta. split; [reflexivity|].
  assert (forall ms, exists n,
            (n <= List.length ms)%nat /\ (ms = [] \/ 1 <= n)%nat
            /\ snd (dispatch up ms contents [])
               = expected_trace contents 0 (firstn n ms)) as Hshape.
  { intros ms. destruct (dispatch_run ms up contents) as (r & n & HR & ->).
    exists n. cbn [snd]. rewrite schedule_from_zero.
    split; [exact (Run_attempts_le _ _ _ _ _ _ _ HR)|]. split; [|reflexivity].
    destruct ms; [now left | right].
    apply (Run_attempts_pos _ _ _ _ _ _ _ HR). discriminate. }
  destruct (Hshape models) as (n & Hle & Hpos & Htr).
  assert (delays (snd (dispatch up models contents [])) =
          map (fun i => RETRY_DELAY * (Z.of_nat i + 1)) (seq 0 (n - 1))) as Hd.
  { rewrite Htr, delays_expected_trace, length_firstn, Nat.min_l by exact Hle.
    reflexivity. }
  split; [|split].
  - exists n. repeat split; try assumption.
    rewrite Htr, <- schedule_from_zero, calls_made_schedule, length_firstn. lia.
  - rewrite Hd. apply backoff_increasing.
  - intros model. destruct (Hshape [model]) as (m & Hm & [Hnil | Hm1] & ->);
      [discriminate|].
    cbn [List.length] in Hm. assert (m = 1%nat) as -> by lia. reflexivity.
Qed.

(** ** The assembled contents *)

(** C5: the text part is the trimmed message when that is not empty;
    otherwise the default prompt "What is in this image?" when at least one
    image part was emitted; otherwise there is none.  A text part is the
    last element of [contents], after the image parts.  With the message ""
    and one file that yields an image, the last part is the default prompt. *)
Theorem prompt_is_last_part (body : Body) :
  build_contents body =
    image_parts body ++
    match effective_prompt (message body) (image_parts body) with
    | Some p => [Text p]
    | None => []
    end
  /\ forallb is_image (image_parts body) = true
  /\ (forall p, effective_prompt (message body) (image_parts body) = Some p ->
                last (build_contents body) (Text EmptyString) = Text p)
  /\ (forall file d m,
        process_file [] file = [InlineData d m] ->
        build_contents (mkBody (Some EmptyString) (Some [file]))
        = [InlineData d m; Text "What is in this image?"]).
Proof.
  split; [apply build_contents_eq|]. split; [apply image_parts_are_images|]. split.
  - intros p Hp. rewrite build_contents_eq, Hp. apply last_last.
  - intros file d m Hf. rewrite build_contents_eq. unfold image_parts.
    cbn [files message flat_map]. rewrite Hf. reflexivity.
Qed.

Lemma blank_message_no_prompt (message : option string) :
  message = None \/ (exists m, message = Some m /\ whitespace_only m = true) ->
  effective_prompt message [] = None.
Proof.
  intros [-> | (m & -> & Hm)]; [reflexivity|].
  unfold effective_prompt. apply trim_empty_iff in Hm. now rewrite Hm.
Qed.

(** C7: a request whose message is absent, empty or made of white space,
    and none of whose files yields an image part, is answered with status
    400 and "No content provided"; the upstream is not called. *)
Theorem empty_request_is_rejected
    (models : list string) (up : Upstream) (request : Request) (body : Body) :
  Js.truthy (GEMINI_API_KEY request) = true ->
  request_json request = Some body ->
  message body = None
  \/ (exists m, message body = Some m /\ whitespace_only m = true) ->
  image_parts body = [] ->
  POST_with models up request [] =
  (Value (mkResponse
            (JsonError "No content provided. Please include a message or image." None)
            400),
   []).
Proof.
  intros Hk Hb Hm Hi. unfold POST_with, try_catch. rewrite Hk, Hb. cbn [negb].
  rewrite build_contents_eq, Hi, (blank_message_no_prompt _ Hm). reflexivity.
Qed.

(** ** The filter on the files *)

Lemma dropped_file_contributes_nothing (file : File) :
  is_dropped file -> process_file [] file = [].
Proof.
  rewrite process_file_eq. intros [Ht | [Hd | (raw & piece & Hd & Hp & Hc)]].
  - destruct (type file) as [m|] eqn:Et; [|reflexivity].
    destruct (data file); [|reflexivity].
    destruct (Js.startsWith m "image/") eqn:E; [|reflexivity].
    apply startsWith_iff in E as [rest ->]. exfalso. exact (Ht rest Et).
  - rewrite Hd. destruct (type file); reflexivity.
  - rewrite Hd. destruct (type file) as [m|]; [|reflexivity].
    destruct (Js.startsWith m "image/"); [|reflexivity].
    destruct raw as [|c raw]; [reflexivity|].
    rewrite Hp. cbn [option_map]. now rewrite Hc.
Qed.

Lemma image_part_well_formed (file : File) (p : Part) :
  In p (process_file [] file) -> well_formed_part p.
Proof.
  intros Hp.
  apply process_file_emits in Hp
    as (m & raw & piece & _ & Ht & _ & _ & _ & Hne & _ & ->).
  unfold well_formed_part.
  split; [exact (proj1 (startsWith_iff _ _) Ht)|]. split; [exact Hne|].
  apply removeWhiteSpace_clean.
Qed.

Lemma POST_with_contents (models : list string) (up : Upstream)
    (key : option string) (body1 body2 : Body) :
  build_contents body1 = build_contents body2 ->
  POST_with models up (mkRequest key (Some body1)) [] =
  POST_with models up (mkRequest key (Some body2)) [].
Proof.
  intros H. unfold POST_with. cbn [GEMINI_API_KEY request_json]. now rewrite H.
Qed.

(** C8: every image part of [contents] has a media type that begins with
    [image/] and data that is not empty; a file that fails the type check,
    has no data, or whose data is empty once cleaned adds nothing to
    [contents], and the request is handled as if the file were not in the
    list. *)
Theorem images_are_filtered
    (models : list string) (up : Upstream) (body : Body) :
  Forall well_formed_part (build_contents body)
  /\ (forall contents file,
        is_dropped file -> process_file contents file = contents)
  /\ (forall key msg fs1 file fs2,
        is_dropped file ->
        build_contents (mkBody msg (Some (fs1 ++ file :: fs2)))
        = build_contents (mkBody msg (Some (fs1 ++ fs2)))
        /\ POST_with models up
             (mkRequest key (Some (mkBody msg (Some (fs1 ++ file :: fs2))))) []
           = POST_with models up
               (mkRequest key (Some (mkBody msg (Some (fs1 ++ fs2))))) []).
Proof.
  split; [|split].
  - rewrite build_contents_eq. apply Forall_app. split.
    + apply Forall_forall. intros p Hp. unfold image_parts in Hp.
      destruct (files body) as [fs|]; [|contradiction].
      apply in_flat_map in Hp as (f & _ & Hf).
      exact (image_part_well_formed f p Hf).
    + destruct (effective_prompt _ _); repeat constructor.
  - intros contents file H.
    rewrite process_file_app, (dropped_file_contributes_nothing _ H).
    apply app_nil_r.
  - intros key msg fs1 file fs2 H.
    assert (build_contents (mkBody msg (Some (fs1 ++ file :: fs2)))
            = build_contents (mkBody msg (Some (fs1 ++ fs2)))) as E.
    { rewrite !build_contents_eq. unfold image_parts. cbn [files message].
      rewrite !flat_map_app. cbn [flat_map].
      rewrite (dropped_file_contributes_nothing _ H). reflexivity. }
    split; [exact E | now apply POST_with_contents].
Qed.

(** C6, as the code has it: the data transmitted for an attachment is its
    data string, reduced - when it contains a comma - to the piece between
    its first comma and the next one (or the end), with all white space
    removed.  So the payload of [data:<mime>;base64,<payload>], where
    neither [<mime>] nor [<payload>] has a comma, is transmitted without its
    white space, and data without a comma is altered by the removal of
    white space only. *)
Theorem transmitted_data_is_kept_piece
    (file : File) (cleaned mimeType : string) :
  process_file [] file = [InlineData cleaned mimeType] ->
  exists raw,
    data file = Some raw /\ type file = Some mimeType
    /\ ((comma_free raw /\ cleaned = Js.removeWhiteSpace raw)
        \/ (exists a p,
               comma_free a /\ comma_free p
               /\ (raw = (a ++ "," ++ p)%string
                   \/ exists rest, raw = (a ++ "," ++ p ++ "," ++ rest)%string)
               /\ cleaned = Js.removeWhiteSpace p))
    /\ (forall mime payload,
          DataUrl raw mime payload -> comma_free mime -> comma_free payload ->
          cleaned = Js.removeWhiteSpace payload)
    /\ (forall a c b,
          cleaned = (a ++ String c b)%string -> Js.isWhiteSpace c = false).
Proof.
  intros H.
  assert (In (InlineData cleaned mimeType) (process_file [] file)) as Hin
    by (rewrite H; now left).
  apply process_file_emits in Hin
    as (m & raw & piece & Ht & _ & Hd & _ & Hp & _ & _ & E).
  injection E as -> ->. exists raw.
  split; [exact Hd|]. split; [exact Ht|]. split; [|split].
  - destruct (kept_piece_cases raw) as [[Hf Hk] | (a & p & Ha & Hpf & Hk & Hraw)].
    + left. split; [exact Hf|]. congruence.
    + right. exists a, p. repeat split; try assumption. congruence.
  - intros mime payload Hu Hm Hpl.
    rewrite (kept_piece_data_url _ _ _ Hu Hm Hpl) in Hp. congruence.
  - apply removeWhiteSpace_clean.
Qed.

(** ** A response without text *)

Lemma attempt_outcome_missing_text (up : Upstream)
    (n : nat) (model : string) (contents : list Part) :
  attempt_outcome (missing_text_rejects up n model contents)
  = attempt_outcome (up n model contents).
Proof.
  unfold missing_text_rejects, attempt_outcome.
  destruct (up n model contents) as [[[[|c t]|]]|e]; reflexivity.
Qed.

(** The loop sees the upstream through [attempt_outcome] only. *)
Lemma retry_loop_ext (up up' : Upstream) (contents : list Part) :
  (forall n model,
     attempt_outcome (up n model contents) = attempt_outcome (up' n model contents)) ->
  forall models attempt lastError tr,
    calls_made tr = attempt ->
    retry_loop up contents attempt models lastError tr
    = retry_loop up' contents attempt models lastError tr.
Proof.
  intros H. induction models as [|model models IH]; intros attempt lastError tr Hc;
    [reflexivity|].
  cbn [retry_loop]. unfold bind. rewrite !iteration_run by exact Hc. rewrite H.
  destruct (attempt_outcome (up' attempt model contents)) as [t|e]; [reflexivity|].
  destruct (is_client_error (status e)); [reflexivity|].
  apply IH. rewrite calls_made_app, calls_made_attempt_events. lia.
Qed.

Lemma POST_with_ext (models : list string) (up up' : Upstream) (request : Request) :
  (forall n model contents,
     attempt_outcome (up n model contents) = attempt_outcome (up' n model contents)) ->
  POST_with models up request [] = POST_with models up' request [].
Proof.
  intros H. unfold POST_with, try_catch.
  destruct (negb (Js.truthy (GEMINI_API_KEY request))); [reflexivity|].
  destruct (request_json request) as [body|]; [|reflexivity].
  destruct (List.length (build_contents body) =? 0)%nat; [reflexivity|].
  unfold dispatch, bind.
  rewrite (retry_loop_ext up up' _ (fun n model => H n model _) models 0%nat None []
             eq_refl).
  reflexivity.
Qed.

(** C9: an upstream call that resolves without text counts as a failed
    attempt.  The request runs exactly as if that call had been rejected
    with the error "No text response received from API": if a model remains,
    it is tried; if none remains, the response is the one classified from
    that error (status 500); and no response ever carries an empty text. *)
Theorem missing_text_is_a_failed_attempt
    (models : list string) (up : Upstream) (request : Request) (body : Body)
    (k : nat) (response : GenerateContentResponse) :
  Js.truthy (GEMINI_API_KEY request) = true ->
  request_json request = Some body ->
  build_contents body <> [] ->
  (k < calls_made (snd (POST_with models up request [])))%nat ->
  up k (nth k models "") (build_contents body) = Resolves response ->
  Js.truthy (text response) = false ->
  let run := POST_with models up request [] in
  run = POST_with models (missing_text_rejects up) request []
  /\ missing_text_rejects up k (nth k models "") (build_contents body)
     = Rejects NO_TEXT_ERROR
  /\ ((S k < List.length models)%nat -> (S k < calls_made (snd run))%nat)
  /\ (S k = List.length models ->
      fst run =
      Value (mkResponse
               (JsonError "Failed to generate response from API."
                          (Some "No text response received from API"))
               500))
  /\ (forall resp, fst run = Value resp -> json resp <> JsonResponse EmptyString).
Proof.
  intros Hk Hb Hc Hmade Hup Ht run. subst run.
  split; [apply POST_with_ext; intros; symmetry; apply attempt_outcome_missing_text|].
  split; [unfold missing_text_rejects; now rewrite Hup, Ht|].
  destruct (POST_with_run models up request body Hk Hb Hc) as (r & n & HR & Hrun).
  rewrite Hrun in *. cbn [fst snd] in *.
  pose proof (Run_attempts_le _ _ _ _ _ _ _ HR) as Hle.
  rewrite calls_made_schedule, length_firstn, Nat.min_l in * by exact Hle.
  assert (attempt_outcome (up k (nth k models "") (build_contents body))
          = inr NO_TEXT_ERROR) as Ho.
  { rewrite Hup. unfold attempt_outcome.
    destruct (text response) as [[|c t]|]; try reflexivity. discriminate Ht. }
  assert (n = S k -> r = inr (Some NO_TEXT_ERROR) /\ n = List.length models) as Hlast.
  { intros ->. pose proof (Run_last_attempt _ _ _ _ _ _ _ HR k eq_refl) as HL.
    cbn [Nat.add] in HL. rewrite Ho in HL. destruct HL as [-> [HL | HL]]; auto.
    discriminate HL. }
  split; [|split].
  - intros Hmore. destruct (Nat.eq_dec n (S k)) as [E | E]; [|lia].
    destruct (Hlast E). lia.
  - intros Hend. destruct (Hlast ltac:(lia)) as [-> _]. reflexivity.
  - intros resp Hresp. injection Hresp as <-. destruct r as [resp|lastError].
    + apply Run_response in HR as (c & t & ->). discriminate.
    + destruct (failure_response_spec lastError) as ([err ->] & _). discriminate.
Qed.

(** ** The properties at work *)

Lemma first_success_is_returned_witness :
  fst (POST_with Scenario.three_models Scenario.up_503_429_ok (Scenario.chat "Hi") [])
  = Value (mkResponse (JsonResponse "Hello!") 200)
  /\ models_called
       (snd (POST_with Scenario.three_models Scenario.up_503_429_ok
               (Scenario.chat "Hi") []))
     = ["model-a"; "model-b"; "model-c"]
  /\ calls_made
       (snd (POST_with Scenario.three_models Scenario.up_503_429_ok
               (Scenario.chat "Hi") []))
     = 3%nat.
Proof.
  apply (first_success_is_returned Scenario.three_models Scenario.up_503_429_ok
           (Scenario.chat "Hi") (mkBody (Some "Hi") None) 2 "Hello!").
  - reflexivity.
  - reflexivity.
  - discriminate.
  - simpl. lia.
  - intros j Hj. destruct j as [|[|j]].
    + eexists. split; [reflexivity|]. apply retryable_server_error. lia.
    + eexists. split; [reflexivity|]. apply retryable_rate_limit.
    + lia.
  - reflexivity.
Defined.

Lemma client_error_stops_witness :
  calls_made (snd (POST Scenario.up_403 (Scenario.chat "Hi"))) = 1%nat
  /\ models_called (snd (POST Scenario.up_403 (Scenario.chat "Hi")))
     = ["gemini-3-flash-preview"]
  /\ fst (POST Scenario.up_403 (Scenario.chat "Hi"))
     = Value (mkResponse
                (JsonError "Failed to generate response from API."
                           (Some "Permission denied"))
                500).
Proof.
  apply (client_error_stops MODELS Scenario.up_403 (Scenario.chat "Hi")
           (mkBody (Some "Hi") None) 0
           (mkApiError (Some 403) (Some "Permission denied") None) 403).
  - reflexivity.
  - reflexivity.
  - discriminate.
  - vm_compute. lia.
  - reflexivity.
  - reflexivity.
  - lia.
  - lia.
  - lia.
Defined.

Lemma failure_is_classified_by_top_level_message_witness :
  exists e,
    attempt_outcome (Scenario.up_quota 4%nat "gemma-3-27b-it" [Text "Hi"]) = inr e
    /\ fst (POST Scenario.up_quota (Scenario.chat "Hi"))
       = Value (failure_response (Some e))
    /\ http_status (failure_response (Some e)) = 429
    /\ json (failure_response (Some e))
       = JsonError "Rate limit exceeded. Please wait a moment and try again."
                   (Some "Quota exceeded for this project").
Proof.
  destruct (failure_is_classified_by_top_level_message
              MODELS Scenario.up_quota (Scenario.chat "Hi") (mkBody (Some "Hi") None)
              (mkResponse
                 (JsonError "Rate limit exceeded. Please wait a moment and try again."
                            (Some "Quota exceeded for this project"))
                 429)
              "Rate limit exceeded. Please wait a moment and try again."
              (Some "Quota exceeded for this project")
              eq_refl eq_refl ltac:(discriminate) ltac:(discriminate) eq_refl eq_refl)
    as (e & _ & He & Hresp & _ & _ & _ & H429 & _).
  exists e. split; [exact He|]. rewrite <- Hresp.
  split; [reflexivity|]. split; [|reflexivity].
  apply H429. right.
  vm_compute in He. injection He as <-.
  apply (includes_toLowerCase _ "quota" eq_refl). reflexivity.
Defined.

Lemma backoff_is_linear_witness :
  snd (dispatch Scenario.up_503_429_ok Scenario.three_models [Text "Hi"] [])
  = [ EvGenerate "model-a" [Text "Hi"] FORMATTING_INSTRUCTION;
      EvDelay 1000;
      EvGenerate "model-b" [Text "Hi"] FORMATTING_INSTRUCTION;
      EvDelay 2000;
      EvGenerate "model-c" [Text "Hi"] FORMATTING_INSTRUCTION ].
Proof.
  destruct (backoff_is_linear Scenario.up_503_429_ok Scenario.three_models [Text "Hi"])
    as (_ & (n & _ & _ & Hn & Htr & _) & _).
  vm_compute in Hn. subst n. exact Htr.
Defined.

Lemma prompt_is_last_part_witness :
  build_contents (mkBody (Some EmptyString) (Some [Scenario.png]))
  = [InlineData "iVBORw0KGg==" "image/png"; Text "What is in this image?"].
Proof.
  exact (proj2 (proj2 (proj2 (prompt_is_last_part (mkBody None None))))
           Scenario.png "iVBORw0KGg==" "image/png" eq_refl).
Defined.

(** C6, as stated, fails on data that has a comma and no data-URL prefix:
    the piece before the comma is lost, where the claim has the data
    altered by the removal of white space only. *)
Lemma data_with_comma_loses_its_first_piece :
  process_file [] Scenario.comma_file = [InlineData "CD" "image/png"]
  /\ data Scenario.comma_file = Some "AB,CD"
  /\ ~ normalized_by_prefix "AB,CD" "CD".
Proof.
  split; [reflexivity|]. split; [reflexivity|].
  intros [(mime & payload & Hurl & _) | [_ H]].
  - unfold DataUrl in Hurl. discriminate Hurl.
  - vm_compute in H. discriminate H.
Qed.

Lemma transmitted_data_is_kept_piece_witness :
  process_file [] Scenario.png = [InlineData "iVBORw0KGg==" "image/png"]
  /\ "iVBORw0KGg==" = Js.removeWhiteSpace ("iVBO" ++ String "010" "Rw0K Gg==")%string.
Proof.
  split; [reflexivity|].
  destruct (transmitted_data_is_kept_piece Scenario.png "iVBORw0KGg==" "image/png"
              eq_refl)
    as (raw & Hd & _ & _ & Hurl & _).
  injection Hd as <-.
  apply (Hurl "image/png"); reflexivity.
Defined.

Lemma empty_request_is_rejected_witness :
  POST (Scenario.up_503_429_ok)
       (mkRequest (Some "key")
          (Some (mkBody (Some "  ") (Some [Scenario.notes; Scenario.blank_image]))))
  = (Value (mkResponse
              (JsonError "No content provided. Please include a message or image."
                         None)
              400),
     []).
Proof.
  apply (empty_request_is_rejected MODELS Scenario.up_503_429_ok
           (mkRequest (Some "key")
              (Some (mkBody (Some "  ") (Some [Scenario.notes; Scenario.blank_image]))))
           (mkBody (Some "  ") (Some [Scenario.notes; Scenario.blank_image]))).
  - reflexivity.
  - reflexivity.
  - right. exists "  ". split; reflexivity.
  - reflexivity.
Defined.

Lemma images_are_filtered_witness :
  build_contents
    (mkBody (Some "Hi") (Some ([Scenario.png] ++ Scenario.notes :: [Scenario.blank_image])))
  = build_contents (mkBody (Some "Hi") (Some ([Scenario.png] ++ [Scenario.blank_image]))).
Proof.
  apply (proj2 (proj2 (images_are_filtered MODELS Scenario.up_403 (mkBody None None)))
           None (Some "Hi") [Scenario.png] Scenario.notes [Scenario.blank_image]).
  left. intros rest H. discriminate H.
Defined.

Lemma missing_text_is_a_failed_attempt_witness :
  POST_with Scenario.three_models Scenario.up_no_text_then_ok (Scenario.chat "Hi") []
  = POST_with Scenario.three_models
      (missing_text_rejects Scenario.up_no_text_then_ok) (Scenario.chat "Hi") []
  /\ (1 < calls_made
            (snd (POST_with Scenario.three_models Scenario.up_no_text_then_ok
                    (Scenario.chat "Hi") [])))%nat.
Proof.
  destruct (missing_text_is_a_failed_attempt
              Scenario.three_models Scenario.up_no_text_then_ok (Scenario.chat "Hi")
              (mkBody (Some "Hi") None) 0 (mkGenerated None)
              eq_refl eq_refl ltac:(discriminate) ltac:(vm_compute; lia)
              eq_refl eq_refl)
    as (Hsame & _ & Hretry & _).
  split; [exact Hsame|]. apply Hretry. simpl. lia.
Defined.

Lemma rate_limit_takes_precedence_witness :
  http_status
    (failure_response
       (Some (mkApiError (Some 400) (Some "API key not valid: quota exceeded") None)))
  = 429
  /\ http_status
       (failure_response
          (Some (mkApiError (Some 400) (Some "API key not valid: quota exceeded") None)))
     <> 401.
Proof.
  apply (rate_limit_takes_precedence
           (Some (mkApiError (Some 400) (Some "API key not valid: quota exceeded") None))).
  - right. apply (includes_toLowerCase _ "quota" eq_refl). reflexivity.
  - left. apply (includes_toLowerCase _ "api key" eq_refl). reflexivity.
Defined.

(** * Further properties of the handler *)

(** ** Every path through [POST] *)

(** Either the request is refused before the loop, without any event, or
    the loop runs. *)
Lemma POST_with_cases (models : list string) (up : Upstream) (request : Request) :
  (exists err st,
      POST_with models up request [] = (Value (mkResponse (JsonError err None) st), [])
      /\ err <> EmptyString /\ (st = 400 \/ st = 500))
  \/ (exists body r n,
         Js.truthy (GEMINI_API_KEY request) = true
         /\ request_json request = Some body
         /\ build_contents body <> []
         /\ Run up (build_contents body) 0 models None r n
         /\ POST_with models up request []
            = (Value match r with
                     | inl resp => resp
                     | inr lastError => failure_response lastError
                     end,
               schedule (build_contents body) 0 (firstn n models))).
Proof.
  destruct (Js.truthy (GEMINI_API_KEY request)) eqn:Hk.
  - destruct (request_json request) as [body|] eqn:Hb.
    + destruct (build_contents body) as [|p ps] eqn:Hc.
      * left. unfold POST_with, try_catch. rewrite Hk, Hb, Hc. cbn.
        do 2 eexists. split; [reflexivity|]. split; [discriminate | now left].
      * right. assert (build_contents body <> []) as Hne by (rewrite Hc; discriminate).
        destruct (POST_with_run models up request body Hk Hb Hne) as (r & n & HR & E).
        exists body, r, n. auto.
    + left. unfold POST_with, try_catch. rewrite Hk, Hb. cbn.
      do 2 eexists. split; [reflexivity|]. split; [discriminate | now left].
  - left. unfold POST_with, try_catch. rewrite Hk. cbn.
    do 2 eexists. split; [reflexivity|]. split; [discriminate | now right].
Qed.

Lemma failure_response_shape (lastError : option ApiError) :
  exists c err details,
    json (failure_response lastError) = JsonError (String c err) details
    /\ (http_status (failure_response lastError) = 429
        \/ http_status (failure_response lastError) = 401
        \/ http_status (failure_response lastError) = 500).
Proof.
  unfold failure_response.
  destruct (isRateLimitError (errorMessage lastError));
    [|destruct (isAuthError (errorMessage lastError))];
    cbn; do 3 eexists; split; try reflexivity; auto.
Qed.

(** X1: whatever the request and the upstream do, the handler answers and
    does not throw: the status is 200, 400, 401, 429 or 500; it is 200
    exactly when the body is [{ response }] with a text that is not empty,
    and every other answer carries an [error] text that is not empty. *)
Theorem POST_always_answers
    (models : list string) (up : Upstream) (request : Request) :
  exists resp,
    fst (POST_with models up request []) = Value resp
    /\ In (http_status resp) [200; 400; 401; 429; 500]
    /\ (http_status resp = 200 <->
        exists c t, json resp = JsonResponse (String c t))
    /\ (http_status resp <> 200 ->
        exists c err details, json resp = JsonError (String c err) details).
Proof.
  destruct (POST_with_cases models up request)
    as [(err & st & E & Herr & Hst) | (body & r & n & _ & _ & _ & HR & E)];
    rewrite E; cbn [fst].
  - exists (mkResponse (JsonError err None) st). cbn [http_status json].
    split; [reflexivity|]. split; [|split].
    + destruct Hst as [-> | ->]; repeat ((left; reflexivity) || right).
    + split; [destruct Hst; subst; discriminate|].
      intros (c & t & H). discriminate H.
    + intros _. destruct err as [|c err]; [congruence|]. eauto.
  - destruct r as [resp|lastError].
    + apply Run_response in HR as (c & t & ->).
      exists (mkResponse (JsonResponse (String c t)) 200). cbn [http_status json].
      split; [reflexivity|]. split; [now left|]. split; [|congruence].
      split; eauto.
    + destruct (failure_response_shape lastError) as (c & err & details & Hj & Hs).
      exists (failure_response lastError).
      split; [reflexivity|]. split; [|split].
      * destruct Hs as [-> | [-> | ->]]; repeat ((left; reflexivity) || right).
      * split; [destruct Hs as [H | [H | H]]; rewrite H; discriminate|].
        intros (c' & t & H). congruence.
      * eauto.
Qed.

(** ** The cost of a request *)

Lemma sum_of_backoffs (k i : nat) :
  2 * fold_right Z.add 0 (map (fun j => 1000 * (Z.of_nat j + 1)) (seq i k))
  = 1000 * Z.of_nat k * (2 * Z.of_nat i + Z.of_nat k + 1).
Proof.
  revert i; induction k as [|k IH]; intros i; [simpl; lia|].
  cbn [seq map fold_right]. specialize (IH (S i)). nia.
Qed.

Lemma total_delay_schedule (contents : list Part) (models : list string) :
  2 * total_delay (schedule contents 0 models)
  = 1000 * Z.of_nat (List.length models) * (Z.of_nat (List.length models) - 1).
Proof.
  unfold total_delay.
  rewrite schedule_from_zero, delays_expected_trace, sum_of_backoffs.
  destruct models; cbn [List.length]; [reflexivity|].
  rewrite Nat.sub_succ, Nat.sub_0_r. lia.
Qed.

(** X2: a request makes at most one call per model, and after [n] calls it
    has waited 1000 * (0 + 1 + ... + (n - 1)) ms in all; with the five
    models of [MODELS], at most five calls and ten seconds of waiting. *)
Theorem backoff_is_bounded
    (models : list string) (up : Upstream) (request : Request) :
  let tr := snd (POST_with models up request []) in
  let n := Z.of_nat (calls_made tr) in
  (calls_made tr <= List.length models)%nat
  /\ 2 * total_delay tr = 1000 * n * (n - 1)
  /\ (calls_made (snd (POST up request)) <= 5)%nat
  /\ total_delay (snd (POST up request)) <= 10000.
Proof.
  assert (forall ms,
            (calls_made (snd (POST_with ms up request [])) <= List.length ms)%nat
            /\ 2 * total_delay (snd (POST_with ms up request []))
               = 1000 * Z.of_nat (calls_made (snd (POST_with ms up request [])))
                 * (Z.of_nat (calls_made (snd (POST_with ms up request []))) - 1))
    as H.
  { intros ms.
    destruct (POST_with_cases ms up request)
      as [(err & st & E & _) | (body & r & n & _ & _ & _ & HR & E)];
      rewrite E; cbn [snd].
    - split; [cbn; lia | reflexivity].
    - pose proof (Run_attempts_le _ _ _ _ _ _ _ HR) as Hle.
      rewrite total_delay_schedule, calls_made_schedule, length_firstn,
        Nat.min_l by exact Hle.
      split; [exact Hle | reflexivity]. }
  cbv zeta. split; [apply H|]. split; [apply H|].
  unfold POST. destruct (H MODELS) as [Hc Hd]. cbn [List.length MODELS] in Hc.
  split; [exact Hc|]. nia.
Qed.

Lemma in_firstn {A : Type} (n : nat) (l : list A) (x : A) :
  In x (firstn n l) -> In x l.
Proof.
  intros H. rewrite <- (firstn_skipn n l). apply in_or_app. now left.
Qed.

Lemma schedule_events (models : list string) (request : Request)
    (body : Body) (called : list string) :
  Js.truthy (GEMINI_API_KEY request) = true ->
  request_json request = Some body ->
  build_contents body <> [] ->
  (forall model, In model called -> In model models) ->
  forall attempt,
    Forall (legitimate_event models request)
           (schedule (build_contents body) attempt called).
Proof.
  intros Hk Hb Hc. induction called as [|model called IH]; intros Hin attempt;
    [constructor|].
  cbn [schedule]. apply Forall_app. split.
  - unfold attempt_events. apply Forall_app. split.
    + destruct (0 <? attempt)%nat eqn:E; constructor; [|constructor].
      apply Nat.ltb_lt in E. unfold legitimate_event, RETRY_DELAY. lia.
    + constructor; [|constructor]. unfold legitimate_event.
      repeat split; eauto. apply Hin. now left.
  - apply IH. intros m Hm. apply Hin. now right.
Qed.

(** X3: the upstream is called only for a request with a configured key, a
    parsed body and contents that are not empty; every call of a request
    submits the contents built from its body, with the formatting
    instruction, to a model of the list, and every wait is positive. *)
Theorem upstream_calls_carry_the_contents
    (models : list string) (up : Upstream) (request : Request) :
  Forall (legitimate_event models request) (snd (POST_with models up request [])).
Proof.
  destruct (POST_with_cases models up request)
    as [(err & st & E & _) | (body & r & n & Hk & Hb & Hc & _ & E)];
    rewrite E; cbn [snd]; [constructor|].
  apply (schedule_events models request body _ Hk Hb Hc).
  intros model. apply in_firstn.
Qed.

(** X4: when no attempt succeeds and none fails with a client error, every
    model of the list is called, in order, and the response is the one
    classified from the error of the last model. *)
Theorem all_models_are_tried
    (models : list string) (up : Upstream) (request : Request) (body : Body) :
  Js.truthy (GEMINI_API_KEY request) = true ->
  request_json request = Some body ->
  build_contents body <> [] ->
  models <> [] ->
  (forall j, (j < List.length models)%nat ->
     exists e,
       attempt_outcome (up j (nth j models "") (build_contents body)) = inr e
       /\ is_client_error (status e) = false) ->
  models_called (snd (POST_with models up request [])) = models
  /\ exists e,
       attempt_outcome
         (up (List.length models - 1)%nat
             (nth (List.length models - 1) models "") (build_contents body))
       = inr e
       /\ fst (POST_with models up request []) = Value (failure_response (Some e)).
Proof.
  intros Hk Hb Hc Hm Hfail.
  destruct (POST_with_run models up request body Hk Hb Hc) as (r & n & HR & ->).
  cbn [fst snd]. rewrite models_called_schedule.
  pose proof (Run_attempts_le _ _ _ _ _ _ _ HR) as Hle.
  pose proof (Run_attempts_pos _ _ _ _ _ _ _ HR Hm) as Hpos.
  destruct n as [|m]; [lia|].
  pose proof (Run_last_attempt _ _ _ _ _ _ _ HR m eq_refl) as HL.
  cbn [Nat.add] in HL.
  destruct (Hfail m) as (e & He & Hs); [lia|]. rewrite He in HL.
  destruct HL as [-> [HL | HL]]; [congruence|].
  rewrite HL, firstn_all. split; [reflexivity|].
  exists e. rewrite <- HL. cbn [Nat.sub]. rewrite Nat.sub_0_r. auto.
Qed.

Lemma all_models_are_tried_witness :
  models_called (snd (POST Scenario.up_quota (Scenario.chat "Hi"))) = MODELS
  /\ fst (POST Scenario.up_quota (Scenario.chat "Hi"))
     = Value (failure_response
                (Some (mkApiError (Some 500) (Some "Quota exceeded for this project")
                         None))).
Proof.
  destruct (all_models_are_tried MODELS Scenario.up_quota (Scenario.chat "Hi")
              (mkBody (Some "Hi") None) eq_refl eq_refl
              ltac:(discriminate) ltac:(discriminate))
    as [Hcalled (e & He & Hresp)].
  - intros j Hj. cbn [List.length MODELS] in Hj.
    destruct j as [|[|[|[|[|j]]]]]; try lia;
      (eexists; split; [reflexivity | reflexivity]).
  - split; [exact Hcalled|]. vm_compute in He. injection He as <-. exact Hresp.
Defined.

(** ** Cleaning twice *)

Lemma removeWhiteSpace_fixed (s : string) :
  (forall a c b, s = (a ++ String c b)%string -> Js.isWhiteSpace c = false) ->
  Js.removeWhiteSpace s = s.
Proof.
  induction s as [|c s IH]; intros H; [reflexivity|]. simpl.
  rewrite (H EmptyString c s eq_refl). f_equal. apply IH.
  intros a d b ->. exact (H (String c a) d b eq_refl).
Qed.

Lemma removeWhiteSpace_comma_free (s : string) :
  comma_free s -> comma_free (Js.removeWhiteSpace s).
Proof.
  unfold comma_free. induction s as [|c s IH]; [auto|].
  rewrite includes_char_cons, orb_false_iff. intros [Hc Hs]. simpl.
  destruct (Js.isWhiteSpace c); [auto|].
  rewrite includes_char_cons, Hc. simpl. auto.
Qed.

(** X5: the cleaning of the data is idempotent: a file that carries the
    data and the type of an emitted image part yields that very part. *)
Theorem cleaning_is_idempotent
    (file : File) (cleaned mimeType : string) (name' : string) (size' : Z) :
  process_file [] file = [InlineData cleaned mimeType] ->
  process_file [] (mkFile name' (Some mimeType) size' (Some cleaned))
  = [InlineData cleaned mimeType].
Proof.
  intros H.
  assert (In (InlineData cleaned mimeType) (process_file [] file)) as Hin
    by (rewrite H; now left).
  apply process_file_emits in Hin
    as (m & raw & piece & _ & Ht & _ & _ & Hp & Hne & _ & E).
  injection E as -> ->.
  assert (comma_free piece) as Hcf.
  { destruct (kept_piece_cases raw) as [[Hf Hk] | (a & p & _ & Hpf & Hk & _)];
      congruence. }
  apply removeWhiteSpace_comma_free in Hcf.
  pose proof (removeWhiteSpace_fixed _ (removeWhiteSpace_clean piece)) as Hfix.
  rewrite process_file_eq. cbn [type data]. rewrite Ht.
  destruct (Js.removeWhiteSpace piece) as [|c d]; [congruence|].
  unfold kept_piece. rewrite Hcf. cbn [option_map]. rewrite Hfix. reflexivity.
Qed.

Lemma cleaning_is_idempotent_witness :
  process_file [] (mkFile "again.png" (Some "image/png") 12 (Some "iVBORw0KGg=="))
  = [InlineData "iVBORw0KGg==" "image/png"].
Proof.
  exact (cleaning_is_idempotent Scenario.png "iVBORw0KGg==" "image/png"
           "again.png" 12 eq_refl).
Defined.

(** * The page and the handler together *)

(** ** The files that the page accepts *)

Lemma allowed_iff (t : string) :
  Client.allowed t = true <-> In t Client.ALLOWED_TYPES.
Proof.
  unfold Client.allowed. rewrite existsb_exists. split.
  - intros (x & Hx & E). apply String.eqb_eq in E. now subst.
  - intros H. exists t. split; [exact H | apply String.eqb_refl].
Qed.

(** The types of the page's list pass the type check of the handler. *)
Lemma allowed_is_image (t : string) :
  Client.allowed t = true -> Js.startsWith t "image/" = true /\ comma_free t.
Proof.
  intros H. apply allowed_iff in H. unfold comma_free.
  simpl in H. destruct H as [E | [E | [E | [E | []]]]]; subst t; split; reflexivity.
Qed.

Lemma rejection_none (file : Client.BrowserFile) :
  Client.rejection file = None <->
  Client.file_size file <= Client.MAX_FILE_SIZE
  /\ Client.allowed (Client.file_type file) = true.
Proof.
  unfold Client.rejection.
  destruct (Z.ltb_spec Client.MAX_FILE_SIZE (Client.file_size file)) as [Hs | Hs].
  - split; [discriminate | lia].
  - destruct (Client.allowed (Client.file_type file)); cbn.
    + split; auto.
    + split; [discriminate | intros [_ E]; discriminate E].
Qed.

Lemma data_url_second_piece (t payload : string) :
  comma_free t -> comma_free payload ->
  nth_error (Js.split ("data:" ++ t ++ ";base64," ++ payload)%string ",") 1
  = Some payload.
Proof.
  unfold comma_free. intros Ht Hp.
  assert (Js.includes ("data:" ++ t ++ ";base64")%string "," = false) as Ha
    by (rewrite !includes_char_app, Ht; reflexivity).
  assert (("data:" ++ t ++ ";base64," ++ payload)%string
          = (("data:" ++ t ++ ";base64") ++ String "," payload)%string) as ->.
  { simpl. do 5 f_equal. rewrite append_assoc. reflexivity. }
  apply (split_second_piece _ payload EmptyString "," Ha Hp).
Qed.

(** ** What the page sends *)

Lemma trim_nonblank (s : string) :
  whitespace_only s = false ->
  exists c t, Js.trim s = String c t.
Proof.
  intros H. destruct (Js.trim s) as [|c t] eqn:E; [|eauto].
  apply trim_empty_iff in E. congruence.
Qed.

Lemma send_blocked_false (st : Client.State) :
  Client.send_blocked st = false <->
  Client.isLoading st = false
  /\ (whitespace_only (Client.input st) = false \/ Client.files st <> []).
Proof.
  unfold Client.send_blocked. rewrite orb_false_iff, andb_false_iff, negb_false_iff.
  assert (Js.truthy (Some (Js.trim (Client.input st))) = true
          <-> whitespace_only (Client.input st) = false) as ->.
  { destruct (whitespace_only (Client.input st)) eqn:W.
    - apply trim_empty_iff in W. rewrite W. cbn. split; discriminate.
    - destruct (trim_nonblank _ W) as (c & t & ->). cbn. tauto. }
  assert ((List.length (Client.files st) =? 0)%nat = false <-> Client.files st <> [])
    as ->.
  { destruct (Client.files st); cbn; split; congruence. }
  tauto.
Qed.

(** X7: a message that the page sends with a text is never refused as
    empty by the handler.  When [handleSend] issues a request while the
    input holds more than white space, the contents that the handler builds
    from it end with the trimmed input as their text part, so the answer is
    not "No content provided". *)
Theorem sent_text_is_never_empty
    (clock : Client.Clock) (st st' : Client.State) (id : Z)
    (request : Client.ChatRequest)
    (models : list string) (up : Upstream) (key : string) :
  Client.handleSend_begin clock st = Some (st', id, Some request) ->
  whitespace_only (Client.input st) = false ->
  key <> EmptyString ->
  (exists images,
      build_contents (Client.body_of request)
      = images ++ [Text (Js.trim (Client.input st))])
  /\ fst (POST_with models up
            (mkRequest (Some key) (Some (Client.body_of request))) [])
     <> Value (mkResponse
                 (JsonError "No content provided. Please include a message or image."
                            None)
                 400).
Proof.
  intros Hbegin Hinput Hkey.
  unfold Client.handleSend_begin in Hbegin.
  destruct (Client.send_blocked st); [discriminate|].
  destruct (Client.activeConv st) as [conv|]; [|discriminate].
  injection Hbegin as _ _ <-.
  destruct (trim_nonblank _ Hinput) as (c & t & Htrim).
  assert (build_contents
            (Client.body_of
               (Client.mkChatRequest (Client.input st) (Client.files st)
                  (Client.slice_last 10 (Client.messages conv))))
          = image_parts
              (mkBody (Some (Client.input st)) (Some (Client.files st)))
            ++ [Text (Js.trim (Client.input st))]) as Hc.
  { rewrite build_contents_eq. unfold Client.body_of. cbn [Client.message
      Client.request_files message]. unfold effective_prompt.
    rewrite Htrim. reflexivity. }
  split; [eauto|].
  set (request := Client.mkChatRequest _ _ _) in *.
  assert (build_contents (Client.body_of request) <> []) as Hne.
  { rewrite Hc. intros E. apply app_eq_nil in E as [_ E]. discriminate E. }
  assert (Js.truthy (Some key) = true) as Hk by (destruct key; [congruence | reflexivity]).
  destruct (POST_with_run models up
              (mkRequest (Some key) (Some (Client.body_of request)))
              (Client.body_of request) Hk eq_refl Hne) as (r & n & HR & ->).
  cbn [fst]. destruct r as [resp|lastError].
  - apply Run_response in HR as (c' & t' & ->). discriminate.
  - destruct (failure_response_shape lastError) as (c' & err & d & _ & Hs).
    intros E. injection E as E. rewrite E in Hs. cbn in Hs.
    destruct Hs as [Hs | [Hs | Hs]]; discriminate Hs.
Qed.

Lemma sent_text_is_never_empty_witness :
  exists images,
    build_contents
      (Client.body_of (Client.mkChatRequest "  Hello " [Scenario.png] []))
    = images ++ [Text "Hello"].
Proof.
  destruct (sent_text_is_never_empty
              (Client.mkClock 1700000000000 "2023-11-14T22:13:20.000Z")
              (Client.mkState [Client.mkConversation 1 "New Conversation" []] 1
                 "  Hello " [Scenario.png] true false true false)
              _ 1 (Client.mkChatRequest "  Hello " [Scenario.png] [])
              MODELS Scenario.up_403 "key"
              eq_refl eq_refl ltac:(discriminate)) as [H _].
  exact H.
Defined.

(** ** The conversations of the page *)

Section Conversations.

Lemma find_conversation_map (f : Client.Conversation -> Client.Conversation)
    (id : Z) (l : list Client.Conversation) :
  (forall c, Client.conv_id (f c) = Client.conv_id c) ->
  find (fun c => Client.conv_id c =? id) (map f l)
  = option_map f (find (fun c => Client.conv_id c =? id) l).
Proof.
  intros Hf. induction l as [|c l IH]; [reflexivity|].
  cbn [map find]. rewrite Hf. destruct (Client.conv_id c =? id); [reflexivity | exact IH].
Qed.

Lemma map_ids_preserved (f : Client.Conversation -> Client.Conversation)
    (l : list Client.Conversation) :
  (forall c, Client.conv_id (f c) = Client.conv_id c) ->
  map Client.conv_id (map f l) = map Client.conv_id l.
Proof. intros Hf. rewrite map_map. apply map_ext. exact Hf. Qed.

Lemma append_message_ids (id : Z) (m : Client.Message)
    (l : list Client.Conversation) :
  map Client.conv_id (Client.append_message id m l) = map Client.conv_id l.
Proof.
  apply map_ids_preserved. intros c. destruct (Client.conv_id c =? id); reflexivity.
Qed.

Lemma find_conversation_some (id : Z) (l : list Client.Conversation) :
  In id (map Client.conv_id l) ->
  exists conv, find (fun c => Client.conv_id c =? id) l = Some conv
               /\ Client.conv_id conv = id.
Proof.
  induction l as [|c l IH]; [contradiction|]. cbn [map find In].
  destruct (Z.eqb_spec (Client.conv_id c) id) as [E | E]; [eauto|].
  intros [H | H]; [contradiction | auto].
Qed.

Lemma find_conversation_none (id : Z) (l : list Client.Conversation) :
  find (fun c => Client.conv_id c =? id) l = None <->
  ~ In id (map Client.conv_id l).
Proof.
  induction l as [|c l IH]; cbn [map find In]; [tauto|].
  destruct (Z.eqb_spec (Client.conv_id c) id) as [E | E].
  - split; [discriminate | intros H; exfalso; auto].
  - rewrite IH. tauto.
Qed.

Lemma copied_files (fs : list File) :
  map (fun f => mkFile (name f) (type f) (size f) (data f)) fs = fs.
Proof.
  induction fs as [|[n t s d] fs IH]; [reflexivity|]. cbn. now rewrite IH.
Qed.

(** What [handleSend] does before the request, when it is not blocked. *)
Lemma handleSend_begin_eq (clock : Client.Clock) (st : Client.State) :
  Client.send_blocked st = false ->
  Client.handleSend_begin clock st =
  let userMessage :=
    Client.mkMessage (Client.now clock) Client.user (Client.input st)
      (Some (Client.files st)) (Client.toISOString clock) false in
  Some (Client.mkState
          (map (fun conv =>
                  if Client.conv_id conv =? Client.activeConvId st
                  then Client.mkConversation (Client.conv_id conv)
                         (if (List.length (Client.messages conv) =? 0)%nat
                             && Js.truthy (Some (Js.trim (Client.input st)))
                          then Client.title_of_input (Client.input st)
                          else Client.title conv)
                         (Client.messages conv ++ [userMessage])
                  else conv)
               (Client.conversations st))
          (Client.activeConvId st) "" [] (Client.sidebarOpen st) true
          (Client.storageLoaded st) (Client.showClearModal st),
        Client.activeConvId st,
        option_map
          (fun conv =>
             Client.mkChatRequest (Client.input st) (Client.files st)
               (Client.slice_last 10 (Client.messages conv)))
          (Client.activeConv st)).
Proof.
  intros H. unfold Client.handleSend_begin. rewrite H, copied_files.
  destruct (Client.activeConv st); reflexivity.
Qed.

Lemma handleSend_begin_some (clock : Client.Clock) (st st' : Client.State)
    (id : Z) (request : option Client.ChatRequest) :
  Client.handleSend_begin clock st = Some (st', id, request) ->
  Client.send_blocked st = false.
Proof.
  unfold Client.handleSend_begin. destruct (Client.send_blocked st);
    [discriminate | reflexivity].
Qed.

Lemma handleSend_begin_ids (clock : Client.Clock) (st st' : Client.State)
    (id : Z) (request : option Client.ChatRequest) :
  Client.handleSend_begin clock st = Some (st', id, request) ->
  map Client.conv_id (Client.conversations st')
  = map Client.conv_id (Client.conversations st)
  /\ Client.activeConvId st' = Client.activeConvId st
  /\ id = Client.activeConvId st.
Proof.
  intros H. pose proof (handleSend_begin_some _ _ _ _ _ H) as Hb.
  rewrite (handleSend_begin_eq clock st Hb) in H. cbv zeta in H.
  injection H as <- <- _. cbn [Client.conversations Client.activeConvId].
  split; [|auto]. apply map_ids_preserved.
  intros c. destruct (Client.conv_id c =? Client.activeConvId st); reflexivity.
Qed.

Lemma ids_of_filter (id : Z) (l : list Client.Conversation) :
  map Client.conv_id (filter (fun c => negb (Client.conv_id c =? id)) l)
  = filter (fun i => negb (i =? id)) (map Client.conv_id l).
Proof.
  induction l as [|c l IH]; [reflexivity|]. cbn [filter map].
  destruct (Client.conv_id c =? id); cbn [negb map]; now rewrite IH.
Qed.

Lemma two_distinct_ids (id : Z) (ids : list Z) :
  NoDup ids -> (2 <= List.length ids)%nat ->
  filter (fun i => negb (i =? id)) ids <> [].
Proof.
  intros Hnd Hlen. destruct ids as [|a [|b ids]]; cbn [List.length] in Hlen; try lia.
  cbn [filter].
  destruct (Z.eqb_spec a id) as [Ea | Ea]; cbn [negb]; [|discriminate].
  destruct (Z.eqb_spec b id) as [Eb | Eb]; cbn [negb]; [|discriminate].
  exfalso. inversion Hnd as [|? ? Hin _]; subst. apply Hin. now left.
Qed.

Lemma deleteConversation_well_formed (id : Z) (st : Client.State) :
  Client.well_formed st ->
  Client.well_formed (fst (Client.deleteConversation id st))
  /\ snd (Client.deleteConversation id st) = false.
Proof.
  intros [Hnd Hin]. unfold Client.deleteConversation.
  destruct (List.length (Client.conversations st) =? 1)%nat eqn:Hone;
    [split; [split; assumption | reflexivity]|].
  apply Nat.eqb_neq in Hone.
  assert (2 <= List.length (map Client.conv_id (Client.conversations st)))%nat as Hlen.
  { rewrite length_map. destruct (Client.conversations st) as [|c [|c' l]];
      cbn [List.length] in *; try lia. contradiction. }
  pose proof (two_distinct_ids id _ Hnd Hlen) as Hne.
  rewrite <- ids_of_filter in Hne.
  assert (NoDup (map Client.conv_id
                   (filter (fun c => negb (Client.conv_id c =? id))
                      (Client.conversations st)))) as Hnd'
    by (rewrite ids_of_filter; now apply NoDup_filter).
  destruct (Z.eqb_spec (Client.activeConvId st) id) as [E | E].
  - destruct (filter _ (Client.conversations st)) as [|first rest] eqn:Ef;
      [now contradiction Hne|].
    split; [|reflexivity]. split; cbn; [exact Hnd' | now left].
  - split; [|reflexivity]. split; cbn [fst Client.conversations Client.activeConvId];
      [exact Hnd'|].
    rewrite ids_of_filter. apply filter_In. split; [exact Hin|].
    apply negb_true_iff. now apply Z.eqb_neq.
Qed.

Lemma step_well_formed (st st' : Client.State) :
  Client.well_formed st -> Client.step st st' -> Client.well_formed st'.
Proof.
  intros Hwf Hstep. pose proof Hwf as [Hnd Hin].
  destruct Hstep as [clock st st' id request Hsend | id clock reply st
                    | clock st Hfresh | id st | st | clock st | st
                    | conv st Hconv | value st | st | index st
                    | reader selected st].
  - destruct (handleSend_begin_ids _ _ _ _ _ Hsend) as (Hids & Hact & _).
    unfold Client.well_formed. now rewrite Hids, Hact.
  - unfold Client.well_formed, Client.handleSend_settle.
    cbn [Client.conversations Client.activeConvId].
    now rewrite append_message_ids.
  - unfold Client.well_formed, Client.createNewConversation.
    cbn [Client.conversations Client.activeConvId Client.conv_id].
    rewrite map_app. cbn [map Client.conv_id]. split.
    + apply NoDup_app; [exact Hnd | repeat constructor; intros [] |].
      intros a Ha [<- | []]. contradiction.
    + apply in_or_app. right. now left.
  - now apply deleteConversation_well_formed.
  - exact Hwf.
  - unfold Client.well_formed, Client.confirmClearAll. cbn. split; [|now left].
    repeat constructor. intros [].
  - exact Hwf.
  - unfold Client.well_formed, Client.selectConversation.
    cbn [Client.conversations Client.activeConvId]. split; [exact Hnd|].
    now apply in_map.
  - exact Hwf.
  - exact Hwf.
  - exact Hwf.
  - unfold Client.handleFileSelect. destruct selected; [exact Hwf|].
    destruct (flat_map _ (filter _ _)); exact Hwf.
Qed.

(** X8: the page always has an active conversation.  From a state whose
    conversations have distinct ids, one of them the active one - the
    initial state is such a state - every sequence of events leads to such
    a state again, provided that each new conversation is created at a
    clock value that is not yet an id: [activeConv] is defined, so
    [handleSend] finds the messages it reads, and [deleteConversation]
    never reads the id of a missing first conversation. *)
Theorem active_conversation_always_exists (st st' : Client.State) :
  Client.well_formed st ->
  Client.reachable st st' ->
  Client.well_formed st'
  /\ (exists conv,
         Client.activeConv st' = Some conv
         /\ Client.conv_id conv = Client.activeConvId st')
  /\ (forall id, snd (Client.deleteConversation id st') = false)
  /\ Client.conversations st' <> [].
Proof.
  intros Hwf Hreach.
  assert (Client.well_formed st') as Hwf'.
  { induction Hreach as [|st' st'' _ IH Hstep]; [exact Hwf|].
    exact (step_well_formed _ _ IH Hstep). }
  split; [exact Hwf'|]. destruct Hwf' as [Hnd Hin]. split; [|split].
  - apply find_conversation_some. exact Hin.
  - intros id. now apply deleteConversation_well_formed.
  - intros E. rewrite E in Hin. contradiction.
Qed.

Lemma active_conversation_always_exists_witness :
  exists conv,
    Client.activeConv
      (fst (Client.deleteConversation 1
              (Client.createNewConversation
                 (Client.mkClock 1700000000000 "2023-11-14T22:13:20.000Z")
                 Client.initial)))
    = Some conv
    /\ Client.conv_id conv = 1700000000000.
Proof.
  destruct (active_conversation_always_exists Client.initial
              (fst (Client.deleteConversation 1
                      (Client.createNewConversation
                         (Client.mkClock 1700000000000 "2023-11-14T22:13:20.000Z")
                         Client.initial))))
    as (_ & Hactive & _).
  - split; [repeat constructor; intros [] | now left].
  - eapply Client.reachable_step; [eapply Client.reachable_step|].
    + apply Client.reachable_refl.
    + apply (Client.step_create
               (Client.mkClock 1700000000000 "2023-11-14T22:13:20.000Z")).
      cbn. intros [H | []]. discriminate H.
    + apply Client.step_delete.
  - exact Hactive.
Defined.

End Conversations.

(** ** A message, its request and its reply *)

(** What the handler answers, for the page: a text with status 200, or an
    error with a status that [response.ok] refuses. *)
Lemma POST_with_response_shape
    (models : list string) (up : Upstream) (request : Request) :
  exists resp,
    fst (POST_with models up request []) = Value resp
    /\ ((exists c t, resp = mkResponse (JsonResponse (String c t)) 200)
        \/ (exists c err details st,
               resp = mkResponse (JsonError (String c err) details) st
               /\ Client.ok st = false)).
Proof.
  destruct (POST_with_cases models up request)
    as [(err & st & E & Herr & Hst) | (body & r & n & _ & _ & _ & HR & E)];
    rewrite E; cbn [fst].
  - destruct err as [|c err]; [congruence|].
    eexists. split; [reflexivity|]. right. exists c, err, None, st.
    split; [reflexivity|]. destruct Hst as [-> | ->]; reflexivity.
  - destruct r as [resp|lastError].
    + apply Run_response in HR as (c & t & ->).
      eexists. split; [reflexivity|]. left. eauto.
    + eexists. split; [reflexivity|]. right.
      destruct (failure_response_shape lastError) as (c & err & details & Hj & Hs).
      exists c, err, details, (http_status (failure_response lastError)). split.
      * destruct (failure_response lastError) as [j s]. cbn in *. now subst j.
      * destruct Hs as [-> | [-> | ->]]; reflexivity.
Qed.

(** X9: a message sent from the page comes back with the answer of the
    handler.  When [handleSend] issues its request and the request settles
    with the response of [POST], the active conversation holds its earlier
    messages, then the message of the user with the input as typed and the
    files attached, then one message of the assistant: the text of the
    response, or, for an error response, "Sorry, I encountered an error: "
    followed by the [error] of the response and ". Please try again.",
    flagged as an error. *)
Theorem reply_is_shown
    (clock clock' : Client.Clock) (st st' : Client.State) (id : Z)
    (request : Client.ChatRequest)
    (models : list string) (up : Upstream) (key : option string) :
  Client.handleSend_begin clock st = Some (st', id, Some request) ->
  exists resp conv conv',
    fst (POST_with models up (mkRequest key (Some (Client.body_of request))) [])
    = Value resp
    /\ Client.activeConv st = Some conv
    /\ Client.activeConv
         (Client.handleSend_settle id clock'
            (Client.reply_of (Client.deliver resp)) st')
       = Some conv'
    /\ Client.messages conv' =
       Client.messages conv
       ++ [ Client.mkMessage (Client.now clock) Client.user (Client.input st)
              (Some (Client.files st)) (Client.toISOString clock) false;
            Client.mkMessage (Client.now clock' + 1) Client.assistant
              match json resp with
              | JsonResponse t => t
              | JsonError err _ =>
                  ("Sorry, I encountered an error: " ++ err
                   ++ ". Please try again.")%string
              end
              None (Client.toISOString clock')
              match json resp with
              | JsonResponse _ => false
              | JsonError _ _ => true
              end ].
Proof.
  intros H. pose proof (handleSend_begin_some _ _ _ _ _ H) as Hb.
  rewrite (handleSend_begin_eq clock st Hb) in H. cbv zeta in H.
  injection H as <- <- Hreq.
  destruct (Client.activeConv st) as [conv|] eqn:Hconv; [|discriminate].
  destruct (POST_with_response_shape models up
              (mkRequest key (Some (Client.body_of request))))
    as (resp & Hresp & Hshape).
  exists resp, conv. rewrite Hresp.
  assert ((Client.conv_id conv =? Client.activeConvId st) = true) as Hid.
  { unfold Client.activeConv in Hconv. now apply find_some in Hconv. }
  assert (Client.reply_of (Client.deliver resp)
          = match json resp with
            | JsonResponse t => inl t
            | JsonError err _ => inr err
            end) as Hreply.
  { destruct Hshape as [(c & t & ->) | (c & err & details & s & -> & Hok)].
    - reflexivity.
    - unfold Client.deliver, Client.reply_of. cbn [http_status json].
      rewrite Hok. reflexivity. }
  rewrite Hreply.
  unfold Client.activeConv, Client.handleSend_settle, Client.append_message.
  cbn [Client.conversations Client.activeConvId].
  rewrite !find_conversation_map;
    [|intros c; destruct (Client.conv_id c =? Client.activeConvId st); reflexivity
     |intros c; destruct (Client.conv_id c =? Client.activeConvId st); reflexivity].
  unfold Client.activeConv in Hconv. rewrite Hconv. cbn [option_map].
  rewrite Hid. cbn [Client.conv_id]. rewrite Hid.
  eexists. split; [reflexivity|]. split; [reflexivity|]. split; [reflexivity|].
  cbn [Client.messages]. rewrite <- app_assoc. cbn [app].
  destruct (json resp); reflexivity.
Qed.

Lemma reply_is_shown_witness :
  exists conv',
    Client.activeConv
      (Client.handleSend_settle 1
         (Client.mkClock 1700000005000 "2023-11-14T22:13:25.000Z")
         (inl "Hello!")
         (Client.mkState
            [Client.mkConversation 1 "Hi"
               [Client.mkMessage 1700000000000 Client.user "Hi" (Some [])
                  "2023-11-14T22:13:20.000Z" false]]
            1 "" [] true true true false))
    = Some conv'
    /\ map Client.content (Client.messages conv') = ["Hi"; "Hello!"].
Proof.
  destruct (reply_is_shown
              (Client.mkClock 1700000000000 "2023-11-14T22:13:20.000Z")
              (Client.mkClock 1700000005000 "2023-11-14T22:13:25.000Z")
              (Client.mkState [Client.mkConversation 1 "New Conversation" []] 1
                 "Hi" [] true false true false)
              _ 1 (Client.mkChatRequest "Hi" [] [])
              Scenario.three_models Scenario.up_503_429_ok (Some "key") eq_refl)
    as (resp & conv & conv' & Hresp & Hconv & Hconv' & Hmsgs).
  vm_compute in Hresp. injection Hresp as <-.
  vm_compute in Hconv. injection Hconv as <-.
  exists conv'. split; [exact Hconv'|]. rewrite Hmsgs. reflexivity.
Defined.

(** ** Deleting a conversation *)

Lemma filter_out_one (id : Z) (ids : list Z) :
  NoDup ids -> In id ids ->
  S (List.length (filter (fun i => negb (i =? id)) ids)) = List.length ids.
Proof.
  induction ids as [|a ids IH]; [contradiction|].
  intros Hnd Hin. inversion Hnd as [|? ? Ha Hnd']; subst. cbn [filter List.length].
  destruct (Z.eqb_spec a id) as [E | E]; cbn [negb List.length].
  - subst a. f_equal. clear IH Hin Hnd.
    induction ids as [|b ids IH]; [reflexivity|]. cbn [filter List.length].
    destruct (Z.eqb_spec b id) as [E | E]; cbn [negb List.length].
    + exfalso. apply Ha. now left.
    + f_equal. apply IH; [|now inversion Hnd'].
      intros H. apply Ha. now right.
  - f_equal. apply IH; [exact Hnd'|]. destruct Hin; [contradiction | assumption].
Qed.

(** X10: [deleteConversation] takes out the conversation of the given id
    and nothing else.  The only conversation of the page is never deleted.
    With two conversations or more, of distinct ids: the conversation of
    that id is gone, the others stay in their order, and the active
    conversation is the one it was, or the first that remains when the
    active one was deleted. *)
Theorem deleteConversation_removes_one (id : Z) (st : Client.State) :
  Client.well_formed st ->
  let st' := fst (Client.deleteConversation id st) in
  (List.length (Client.conversations st) = 1%nat ->
   Client.deleteConversation id st = (st, false))
  /\ ((2 <= List.length (Client.conversations st))%nat ->
      ~ In id (map Client.conv_id (Client.conversations st'))
      /\ Client.conversations st'
         = filter (fun c => negb (Client.conv_id c =? id)) (Client.conversations st)
      /\ (forall conv,
            In conv (Client.conversations st) -> Client.conv_id conv <> id ->
            In conv (Client.conversations st'))
      /\ (In id (map Client.conv_id (Client.conversations st)) ->
          S (List.length (Client.conversations st'))
          = List.length (Client.conversations st))
      /\ (Client.activeConvId st <> id ->
          Client.activeConvId st' = Client.activeConvId st)
      /\ (Client.activeConvId st = id ->
          exists first rest,
            Client.conversations st' = first :: rest
            /\ Client.activeConvId st' = Client.conv_id first)).
Proof.
  intros Hwf st'. subst st'. split.
  - intros H. unfold Client.deleteConversation. now rewrite H.
  - intros Hlen. destruct (deleteConversation_well_formed id st Hwf) as [_ Hthrow].
    destruct Hwf as [Hnd Hin].
    unfold Client.deleteConversation in *.
    destruct (List.length (Client.conversations st) =? 1)%nat eqn:Hone;
      [apply Nat.eqb_eq in Hone; lia|].
    set (filtered := filter (fun c => negb (Client.conv_id c =? id))
                            (Client.conversations st)) in *.
    assert (Client.conversations
              (fst (if Client.activeConvId st =? id
                    then match filtered with
                         | first :: _ =>
                             (Client.mkState filtered (Client.conv_id first)
                                (Client.input st) (Client.files st)
                                (Client.sidebarOpen st) (Client.isLoading st)
                                (Client.storageLoaded st) (Client.showClearModal st),
                              false)
                         | [] =>
                             (Client.mkState filtered (Client.activeConvId st)
                                (Client.input st) (Client.files st)
                                (Client.sidebarOpen st) (Client.isLoading st)
                                (Client.storageLoaded st) (Client.showClearModal st),
                              true)
                         end
                    else (Client.mkState filtered (Client.activeConvId st)
                            (Client.input st) (Client.files st)
                            (Client.sidebarOpen st) (Client.isLoading st)
                            (Client.storageLoaded st) (Client.showClearModal st),
                          false)))
            = filtered) as Hconvs.
    { destruct (Client.activeConvId st =? id); [destruct filtered|]; reflexivity. }
    rewrite Hconvs. split; [|split; [reflexivity|split; [|split; [|split]]]].
    + unfold filtered. rewrite ids_of_filter. intros H.
      apply filter_In in H as [_ H]. rewrite Z.eqb_refl in H. discriminate H.
    + intros conv Hc Hid. apply filter_In. split; [exact Hc|].
      apply negb_true_iff. now apply Z.eqb_neq.
    + intros Hid.
      rewrite <- (length_map Client.conv_id (Client.conversations st)).
      rewrite <- (filter_out_one id _ Hnd Hid), <- ids_of_filter.
      now rewrite length_map.
    + intros Hne. apply Z.eqb_neq in Hne. rewrite Hne. reflexivity.
    + intros He. rewrite He, Z.eqb_refl in *.
      destruct filtered as [|first rest]; [discriminate Hthrow|]. eauto.
Qed.

Lemma deleteConversation_removes_one_witness :
  map Client.conv_id
    (Client.conversations
       (fst (Client.deleteConversation 1
               (Client.mkState
                  [Client.mkConversation 1 "First" [];
                   Client.mkConversation 2 "Second" [];
                   Client.mkConversation 3 "Third" []]
                  1 "" [] true false true false))))
  = [2; 3]
  /\ Client.activeConvId
       (fst (Client.deleteConversation 1
               (Client.mkState
                  [Client.mkConversation 1 "First" [];
                   Client.mkConversation 2 "Second" [];
                   Client.mkConversation 3 "Third" []]
                  1 "" [] true false true false)))
     = 2.
Proof.
  destruct (deleteConversation_removes_one 1
              (Client.mkState
                 [Client.mkConversation 1 "First" [];
                  Client.mkConversation 2 "Second" [];
                  Client.mkConversation 3 "Third" []]
                 1 "" [] true false true false)) as [_ H].
  - split; [|now left]. cbn. repeat constructor; cbn; intuition discriminate.
  - destruct H as (_ & Hconvs & _). { cbn. lia. }
    split; [rewrite Hconvs|]; reflexivity.
Defined.

(** ** The title and the history *)

Lemma slice_to_short (n : nat) (s : string) :
  (String.length s <= n)%nat -> Client.slice_to n s = s.
Proof.
  revert s; induction n as [|n IH]; intros [|c s] H; cbn in *; try reflexivity;
    try lia.
  f_equal. apply IH. lia.
Qed.

Lemma slice_to_long (n : nat) (s : string) :
  (n <= String.length s)%nat ->
  String.length (Client.slice_to n s) = n
  /\ exists rest, s = (Client.slice_to n s ++ rest)%string.
Proof.
  revert s; induction n as [|n IH]; intros s H.
  - split; [destruct s; reflexivity|]. exists s. destruct s; reflexivity.
  - destruct s as [|c s]; cbn in H; [lia|].
    destruct (IH s ltac:(lia)) as (Hl & rest & Hr). cbn. split; [congruence|].
    exists rest. congruence.
Qed.

Lemma string_length_app (a b : string) :
  String.length (a ++ b)%string = (String.length a + String.length b)%nat.
Proof. induction a; cbn; congruence. Qed.

(** X11: the first message with text names its conversation.  When
    [handleSend] runs on an active conversation without messages and an
    input that is more than white space, the title becomes the input, cut
    to its first 30 characters and followed by "..." when it is longer; it
    has 33 characters at most.  A conversation that has messages keeps its
    title. *)
Theorem first_message_names_the_conversation
    (clock : Client.Clock) (st st' : Client.State) (id : Z)
    (request : option Client.ChatRequest) (conv : Client.Conversation) :
  Client.handleSend_begin clock st = Some (st', id, request) ->
  Client.activeConv st = Some conv ->
  exists conv',
    Client.activeConv st' = Some conv'
    /\ (Client.messages conv <> [] -> Client.title conv' = Client.title conv)
    /\ (Client.messages conv = [] -> whitespace_only (Client.input st) = true ->
        Client.title conv' = Client.title conv)
    /\ (Client.messages conv = [] -> whitespace_only (Client.input st) = false ->
        (String.length (Client.title conv') <= 33)%nat
        /\ ((String.length (Client.input st) <= 30)%nat ->
            Client.title conv' = Client.input st)
        /\ ((30 < String.length (Client.input st))%nat ->
            exists head rest,
              Client.input st = (head ++ rest)%string
              /\ String.length head = 30%nat
              /\ Client.title conv' = (head ++ "...")%string)).
Proof.
  intros H Hconv. pose proof (handleSend_begin_some _ _ _ _ _ H) as Hb.
  rewrite (handleSend_begin_eq clock st Hb) in H. cbv zeta in H.
  injection H as <- _ _.
  assert ((Client.conv_id conv =? Client.activeConvId st) = true) as Hid.
  { unfold Client.activeConv in Hconv. now apply find_some in Hconv. }
  unfold Client.activeConv in *. cbn [Client.conversations Client.activeConvId].
  rewrite find_conversation_map, Hconv;
    [|intros c; destruct (Client.conv_id c =? Client.activeConvId st); reflexivity].
  cbn [option_map]. rewrite Hid. eexists. split; [reflexivity|].
  cbn [Client.title].
  split; [|split].
  - intros Hm. destruct (Client.messages conv); [congruence | reflexivity].
  - intros -> Hw. apply trim_empty_iff in Hw. rewrite Hw. reflexivity.
  - intros -> Hw. destruct (trim_nonblank _ Hw) as (c & t & ->).
    cbn [List.length Nat.eqb andb Js.truthy]. unfold Client.title_of_input.
    destruct (Nat.ltb_spec 30 (String.length (Client.input st))) as [Hlong | Hshort].
    + destruct (slice_to_long 30 (Client.input st) ltac:(lia)) as (Hl & rest & Hr).
      split; [rewrite string_length_app, Hl; cbn; lia|].
      split; [lia|]. intros _. exists (Client.slice_to 30 (Client.input st)), rest.
      auto.
    + rewrite (slice_to_short 30 _ Hshort), append_empty_r.
      split; [lia|]. split; [reflexivity | lia].
Qed.

Lemma first_message_names_the_conversation_witness :
  exists conv',
    Client.activeConv
      (Client.mkState
         [Client.mkConversation 1
            "What is the capital of the Fre..."
            [Client.mkMessage 1700000000000 Client.user
               "What is the capital of the French Republic?" (Some [])
               "2023-11-14T22:13:20.000Z" false]]
         1 "" [] true true true false)
    = Some conv'
    /\ Client.title conv' = "What is the capital of the Fre...".
Proof.
  destruct (first_message_names_the_conversation
              (Client.mkClock 1700000000000 "2023-11-14T22:13:20.000Z")
              (Client.mkState [Client.mkConversation 1 "New Conversation" []] 1
                 "What is the capital of the French Republic?" [] true false true
                 false)
              _ 1 _ (Client.mkConversation 1 "New Conversation" [])
              eq_refl eq_refl)
    as (conv' & Hconv' & _ & _ & Htitle).
  exists conv'. split; [exact Hconv'|].
  destruct (Htitle eq_refl eq_refl) as (_ & _ & Hlong).
  vm_compute in Hconv'. injection Hconv' as <-. reflexivity.
Defined.

(** X12: the request carries the input as typed, the files attached, and
    as its history the last ten messages that the active conversation had
    before this one (all of them when there are ten or fewer). *)
Theorem request_carries_the_last_ten_messages
    (clock : Client.Clock) (st st' : Client.State) (id : Z)
    (request : Client.ChatRequest) :
  Client.handleSend_begin clock st = Some (st', id, Some request) ->
  exists conv earlier,
    Client.activeConv st = Some conv
    /\ Client.messages conv = earlier ++ Client.conversationHistory request
    /\ List.length (Client.conversationHistory request)
       = Nat.min 10 (List.length (Client.messages conv))
    /\ Client.message request = Client.input st
    /\ Client.request_files request = Client.files st.
Proof.
  intros H. pose proof (handleSend_begin_some _ _ _ _ _ H) as Hb.
  rewrite (handleSend_begin_eq clock st Hb) in H. cbv zeta in H.
  injection H as _ _ Hreq.
  destruct (Client.activeConv st) as [conv|]; [|discriminate].
  injection Hreq as <-.
  cbn [Client.conversationHistory Client.message Client.request_files].
  exists conv, (firstn (List.length (Client.messages conv) - 10) (Client.messages conv)).
  unfold Client.slice_last. rewrite firstn_skipn, length_skipn.
  repeat split. lia.
Qed.

Lemma request_carries_the_last_ten_messages_witness :
  map Client.msg_id
    (Client.conversationHistory
       (Client.mkChatRequest "Hi" []
          (Client.slice_last 10 Scenario.twelve_messages)))
  = [3; 4; 5; 6; 7; 8; 9; 10; 11; 12]
  /\ List.length
       (Client.conversationHistory
          (Client.mkChatRequest "Hi" []
             (Client.slice_last 10 Scenario.twelve_messages)))
     = 10%nat.
Proof.
  destruct (request_carries_the_last_ten_messages
              (Client.mkClock 1700000000000 "2023-11-14T22:13:20.000Z")
              Scenario.long_conversation _ 1
              (Client.mkChatRequest "Hi" []
                 (Client.slice_last 10 Scenario.twelve_messages))
              eq_refl)
    as (conv & earlier & Hconv & _ & Hlen & _).
  vm_compute in Hconv. injection Hconv as <-.
  split; [reflexivity | exact Hlen].
Defined.

(** ** A reply that arrives later *)

(** X13: the reply goes to the conversation its message was sent from, in
    whatever state the page is when the request settles.  That conversation
    gets one more message, of the assistant, flagged as an error exactly
    when the reply is one; every other conversation and the choice of the
    active one are untouched; and when the conversation has been deleted
    in the meantime, the reply is dropped. *)
Theorem reply_goes_to_its_conversation
    (id : Z) (clock : Client.Clock) (reply : string + string) (st : Client.State) :
  let st' := Client.handleSend_settle id clock reply st in
  let find_in s i := find (fun c => Client.conv_id c =? i) (Client.conversations s) in
  Client.activeConvId st' = Client.activeConvId st
  /\ Client.isLoading st' = false
  /\ map Client.conv_id (Client.conversations st')
     = map Client.conv_id (Client.conversations st)
  /\ (forall other, other <> id -> find_in st' other = find_in st other)
  /\ (find_in st id = None -> Client.conversations st' = Client.conversations st)
  /\ (forall conv,
        find_in st id = Some conv ->
        exists m,
          find_in st' id
          = Some (Client.mkConversation (Client.conv_id conv) (Client.title conv)
                    (Client.messages conv ++ [m]))
          /\ Client.role m = Client.assistant
          /\ Client.msg_id m = Client.now clock + 1
          /\ Client.isError m = match reply with inl _ => false | inr _ => true end
          /\ (forall t, reply = inl t -> Client.content m = t)).
Proof.
  cbv zeta. unfold Client.handleSend_settle.
  cbn [Client.conversations Client.activeConvId Client.isLoading].
  split; [reflexivity|]. split; [reflexivity|].
  split; [apply append_message_ids|]. split; [|split].
  - intros other Hne. unfold Client.append_message.
    induction (Client.conversations st) as [|c l IH]; [reflexivity|].
    cbn [map find]. destruct (Z.eqb_spec (Client.conv_id c) id) as [E | E].
    + cbn [Client.conv_id]. rewrite E.
      destruct (Z.eqb_spec id other) as [E' | _]; [congruence | exact IH].
    + destruct (Client.conv_id c =? other); [reflexivity | exact IH].
  - intros Hnone. apply find_conversation_none in Hnone. unfold Client.append_message.
    induction (Client.conversations st) as [|c l IH]; [reflexivity|].
    cbn [map In] in *. destruct (Z.eqb_spec (Client.conv_id c) id) as [E | E].
    + exfalso. apply Hnone. now left.
    + f_equal. apply IH. intros H. apply Hnone. now right.
  - intros conv Hfind. unfold Client.append_message.
    rewrite find_conversation_map, Hfind;
      [|intros c; destruct (Client.conv_id c =? id); reflexivity].
    apply find_some in Hfind as [_ Hid]. cbn [option_map]. rewrite Hid.
    eexists. split; [reflexivity|]. destruct reply; cbn; repeat split; congruence.
Qed.

(** ** The files attached *)

Lemma filter_index_past {A : Type} (l : list A) :
  forall i index, (index < i)%nat -> Client.filter_index i index l = l.
Proof.
  induction l as [|x l IH]; intros i index H; [reflexivity|].
  cbn [Client.filter_index]. destruct (Nat.eqb_spec i index) as [E | _]; [lia|].
  f_equal. apply IH. lia.
Qed.

Lemma filter_index_eq {A : Type} (l : list A) :
  forall i index,
    (i <= index)%nat ->
    Client.filter_index i index l = firstn (index - i) l ++ skipn (S (index - i)) l.
Proof.
  induction l as [|x l IH]; intros i index H.
  - cbn. now rewrite firstn_nil.
  - cbn [Client.filter_index]. destruct (Nat.eqb_spec i index) as [E | E].
    + subst. rewrite Nat.sub_diag. cbn [firstn skipn app].
      apply filter_index_past. lia.
    + replace (index - i)%nat with (S (index - S i)) by lia.
      cbn [firstn skipn app]. f_equal. apply IH. lia.
Qed.

(** X14: [removeFile] takes the file at the given position out of the
    attachments and touches nothing else: the files before and after it
    stay in their order, and a position past the end changes nothing. *)
Theorem removeFile_removes_one (index : nat) (st : Client.State) :
  Client.files (Client.removeFile index st)
  = firstn index (Client.files st) ++ skipn (S index) (Client.files st)
  /\ ((index < List.length (Client.files st))%nat ->
      S (List.length (Client.files (Client.removeFile index st)))
      = List.length (Client.files st))
  /\ ((List.length (Client.files st) <= index)%nat ->
      Client.removeFile index st = st)
  /\ Client.conversations (Client.removeFile index st) = Client.conversations st
  /\ Client.input (Client.removeFile index st) = Client.input st.
Proof.
  assert (Client.files (Client.removeFile index st)
          = firstn index (Client.files st) ++ skipn (S index) (Client.files st)) as E.
  { unfold Client.removeFile. cbn [Client.files].
    rewrite filter_index_eq by lia. now rewrite Nat.sub_0_r. }
  split; [exact E|]. split; [|split; [|split; reflexivity]].
  - intros H. rewrite E, length_app, length_firstn, length_skipn. lia.
  - intros H. unfold Client.removeFile. rewrite filter_index_eq by lia.
    rewrite Nat.sub_0_r, firstn_all2, skipn_all2, app_nil_r by lia.
    destruct st; reflexivity.
Qed.

Lemma accepted_entries (reader : Client.Reader) (selected : list Client.BrowserFile) :
  Forall (fun entry =>
            exists t,
              type entry = Some t /\ Client.allowed t = true
              /\ Js.startsWith t "image/" = true
              /\ size entry <= Client.MAX_FILE_SIZE)
         (flat_map (fun f => match Client.read_file reader f with
                             | Some entry => [entry]
                             | None => []
                             end)
            (filter (fun f => match Client.rejection f with
                              | Some _ => false
                              | None => true
                              end) selected)).
Proof.
  apply Forall_forall. intros entry H.
  apply in_flat_map in H as (f & Hf & Hentry).
  apply filter_In in Hf as [_ Hf].
  destruct (Client.rejection f) eqn:Hrej; [discriminate|].
  apply rejection_none in Hrej as [Hsize Hal].
  unfold Client.read_file in Hentry.
  destruct (reader f); [|contradiction]. destruct Hentry as [<- | []].
  exists (Client.file_type f). cbn [type size].
  repeat split; try assumption. now apply allowed_is_image.
Qed.

Lemma alerts_and_valid_files (selected : list Client.BrowserFile) :
  (List.length (flat_map (fun f => match Client.rejection f with
                                   | Some a => [a]
                                   | None => []
                                   end) selected)
   + List.length (filter (fun f => match Client.rejection f with
                                   | Some _ => false
                                   | None => true
                                   end) selected))%nat
  = List.length selected.
Proof.
  induction selected as [|f l IH]; [reflexivity|]. cbn [flat_map filter].
  destruct (Client.rejection f); cbn [app List.length]; lia.
Qed.

Lemma read_files_length (reader : Client.Reader) (valid : list Client.BrowserFile) :
  (List.length (flat_map (fun f => match Client.read_file reader f with
                                   | Some entry => [entry]
                                   | None => []
                                   end) valid)
   <= List.length valid)%nat.
Proof.
  induction valid as [|f l IH]; [reflexivity|]. cbn [flat_map].
  destruct (Client.read_file reader f); cbn [app List.length]; lia.
Qed.

(** X15: [handleFileSelect] only adds, after the files already attached,
    entries for files of an allowed type - which the handler takes for
    images - and of 10 MB at most; each selected file is refused with one
    alert, or kept, so the alerts and the entries added are together no
    more than the files selected; the conversations are untouched. *)
Theorem handleFileSelect_adds_allowed_images
    (reader : Client.Reader) (selected : list Client.BrowserFile)
    (st : Client.State) :
  let st' := fst (Client.handleFileSelect reader selected st) in
  let alerts := snd (Client.handleFileSelect reader selected st) in
  exists added,
    Client.files st' = Client.files st ++ added
    /\ Forall (fun entry =>
                 exists t,
                   type entry = Some t /\ Client.allowed t = true
                   /\ Js.startsWith t "image/" = true
                   /\ size entry <= Client.MAX_FILE_SIZE)
              added
    /\ (List.length alerts + List.length added <= List.length selected)%nat
    /\ List.length alerts
       = List.length (filter (fun f => match Client.rejection f with
                                       | Some _ => true
                                       | None => false
                                       end) selected)
    /\ Client.conversations st' = Client.conversations st
    /\ Client.activeConvId st' = Client.activeConvId st.
Proof.
  cbv zeta. unfold Client.handleFileSelect.
  destruct selected as [|f0 l] eqn:Hsel.
  - exists []. cbn. rewrite app_nil_r. repeat split; auto.
  - rewrite <- Hsel. clear Hsel.
    pose proof (accepted_entries reader selected) as Hacc.
    pose proof (alerts_and_valid_files selected) as Hcount.
    pose proof (read_files_length reader
                  (filter (fun f => match Client.rejection f with
                                    | Some _ => false
                                    | None => true
                                    end) selected)) as Hread.
    assert (List.length (flat_map (fun f => match Client.rejection f with
                                            | Some a => [a]
                                            | None => []
                                            end) selected)
            = List.length (filter (fun f => match Client.rejection f with
                                            | Some _ => true
                                            | None => false
                                            end) selected)) as Halerts.
    { clear. induction selected as [|f l IH]; [reflexivity|]. cbn [flat_map filter].
      destruct (Client.rejection f); cbn [app List.length]; lia. }
    destruct (flat_map _ (filter _ selected)) as [|entry entries] eqn:Hs.
    + exists []. cbn [fst snd]. rewrite app_nil_r.
      repeat split; auto. cbn [List.length]. lia.
    + exists (entry :: entries). cbn [fst snd Client.files Client.conversations
        Client.activeConvId].
      repeat split; auto. lia.
Qed.

(** ** From the file input to the model *)

(** The entry of a file that is kept and read is among the files attached
    after the selection, which touches the attached files only. *)
Lemma handleFileSelect_attaches
    (reader : Client.Reader) (selected : list Client.BrowserFile)
    (file : Client.BrowserFile) (entry : File) (st : Client.State) :
  In file selected ->
  Client.rejection file = None ->
  Client.read_file reader file = Some entry ->
  let st' := fst (Client.handleFileSelect reader selected st) in
  (exists before after,
      Client.files st' = Client.files st ++ before ++ entry :: after)
  /\ Client.conversations st' = Client.conversations st
  /\ Client.activeConvId st' = Client.activeConvId st
  /\ Client.input st' = Client.input st
  /\ Client.isLoading st' = Client.isLoading st.
Proof.
  intros Hin Hrej Hread. cbv zeta.
  assert (In entry
            (flat_map (fun f => match Client.read_file reader f with
                                | Some entry => [entry]
                                | None => []
                                end)
               (filter (fun f => match Client.rejection f with
                                 | Some _ => false
                                 | None => true
                                 end) selected))) as Hentry.
  { apply in_flat_map. exists file. split.
    - apply filter_In. split; [exact Hin | now rewrite Hrej].
    - rewrite Hread. now left. }
  unfold Client.handleFileSelect.
  destruct selected as [|f0 l] eqn:Hsel; [contradiction|].
  rewrite <- Hsel in *. clear Hsel.
  destruct (flat_map _ (filter _ selected)) as [|e es] eqn:Hs; [contradiction|].
  apply in_split in Hentry as (before & after & Hentry).
  cbn [fst Client.files Client.conversations Client.activeConvId Client.input
       Client.isLoading].
  split; [|auto]. exists before, after. now rewrite Hentry.
Qed.

(** An image part that a file of the body yields is among the contents. *)
Lemma image_part_in_contents (message : option string) (fs : list File)
    (entry : File) (part : Part) :
  In entry fs -> process_file [] entry = [part] ->
  In part (build_contents (mkBody message (Some fs))).
Proof.
  intros Hin Hp. rewrite build_contents_eq. apply in_or_app. left.
  unfold image_parts. cbn [files]. apply in_flat_map.
  exists entry. split; [exact Hin|]. rewrite Hp. now left.
Qed.

(** A configured handler given a body with contents calls the first model
    with these contents. *)
Lemma first_call (model : string) (models : list string) (up : Upstream)
    (request : Request) (body : Body) :
  Js.truthy (GEMINI_API_KEY request) = true ->
  request_json request = Some body ->
  build_contents body <> [] ->
  exists rest,
    snd (POST_with (model :: models) up request [])
    = EvGenerate model (build_contents body) FORMATTING_INSTRUCTION :: rest.
Proof.
  intros Hk Hb Hc.
  destruct (POST_with_run (model :: models) up request body Hk Hb Hc)
    as (r & n & HR & ->).
  pose proof (Run_attempts_pos _ _ _ _ _ _ _ HR ltac:(discriminate)) as Hpos.
  destruct n as [|n]; [lia|].
  cbn [snd firstn schedule]. unfold attempt_events.
  cbn [Nat.ltb Nat.leb app]. eauto.
Qed.

(** X6: an image that the page accepts and reads reaches the model whole.
    A file of the selection, of an allowed type and within the size limit,
    is read as [data:<type>;base64,<payload>].  [handleFileSelect] attaches
    an entry for it that holds the payload.  When [handleSend] then runs,
    the page not waiting for a reply and the active conversation present,
    it issues a request whose files hold the entry, and appends to the
    conversation the user message with the attached files, for which
    [ImageAttachment] shows the data URL that was read.  The handler,
    given this request and a configured key, calls the first model with
    contents that hold the image part of the file's type and the payload,
    white space removed. *)
Theorem selected_image_reaches_the_model
    (reader : Client.Reader) (selected : list Client.BrowserFile)
    (file : Client.BrowserFile) (payload : string)
    (clock : Client.Clock) (st : Client.State) (conv : Client.Conversation)
    (up : Upstream) (key : string) :
  In file selected ->
  Client.rejection file = None ->
  reader file
  = Some ("data:" ++ Client.file_type file ++ ";base64," ++ payload)%string ->
  comma_free payload ->
  Js.removeWhiteSpace payload <> EmptyString ->
  Client.isLoading st = false ->
  Client.activeConv st = Some conv ->
  key <> EmptyString ->
  let attached := fst (Client.handleFileSelect reader selected st) in
  let part := InlineData (Js.removeWhiteSpace payload) (Client.file_type file) in
  exists entry sent request shown,
    Client.read_file reader file = Some entry
    /\ data entry = Some payload
    /\ Client.imageUrl entry = reader file
    /\ In entry (Client.files attached)
    /\ Client.handleSend_begin clock attached
       = Some (sent, Client.activeConvId st, Some request)
    /\ Client.request_files request = Client.files attached
    /\ Client.activeConv sent = Some shown
    /\ Client.messages shown
       = Client.messages conv
         ++ [Client.mkMessage (Client.now clock) Client.user (Client.input st)
               (Some (Client.files attached)) (Client.toISOString clock) false]
    /\ In part (build_contents (Client.body_of request))
    /\ exists rest,
         snd (POST up (mkRequest (Some key) (Some (Client.body_of request))))
         = EvGenerate "gemini-3-flash-preview"
             (build_contents (Client.body_of request)) FORMATTING_INSTRUCTION
           :: rest.
Proof.
  intros Hin Hrej Hread Hp Hne Hload Hconv Hkey attached part.
  pose proof Hrej as Hrej'.
  apply rejection_none in Hrej' as [_ Hal].
  destruct (allowed_is_image _ Hal) as [Himg Htf].
  assert (payload <> EmptyString) as Hpne by (intros ->; now apply Hne).
  set (entry := mkFile (Client.file_name file) (Some (Client.file_type file))
                  (Client.file_size file) (Some payload)).
  assert (Client.read_file reader file = Some entry) as Hentry.
  { unfold Client.read_file. rewrite Hread.
    rewrite (data_url_second_piece _ _ Htf Hp). reflexivity. }
  assert (process_file [] entry = [part]) as Hpart.
  { rewrite process_file_eq. cbn [type data entry]. rewrite Himg.
    destruct payload as [|c payload]; [congruence|].
    unfold kept_piece. rewrite Hp. cbn [option_map]. subst part.
    destruct (Js.removeWhiteSpace (String c payload)); [congruence | reflexivity]. }
  destruct (handleFileSelect_attaches reader selected file entry st Hin Hrej Hentry)
    as ((before & after & Hfiles) & Hconvs & Hid & Hinput & Hloading).
  fold attached in Hfiles, Hconvs, Hid, Hinput, Hloading.
  assert (In entry (Client.files attached)) as Hattached.
  { rewrite Hfiles. apply in_or_app. right. apply in_or_app. right. now left. }
  assert (Client.send_blocked attached = false) as Hblocked.
  { apply send_blocked_false. split; [congruence|]. right.
    intros E. rewrite E in Hattached. contradiction. }
  assert (Client.activeConv attached = Some conv) as Hactive.
  { unfold Client.activeConv. rewrite Hconvs, Hid. exact Hconv. }
  assert ((Client.conv_id conv =? Client.activeConvId st) = true) as Hcid.
  { unfold Client.activeConv in Hconv. now apply find_some in Hconv. }
  set (request := Client.mkChatRequest (Client.input attached) (Client.files attached)
                    (Client.slice_last 10 (Client.messages conv))).
  assert (In part (build_contents (Client.body_of request))) as Hcontents.
  { apply (image_part_in_contents _ _ entry); assumption. }
  exists entry. eexists. exists request. eexists.
  split; [exact Hentry|]. split; [reflexivity|]. split.
  { unfold Client.imageUrl. cbn [data type entry]. rewrite Hread.
    destruct payload; [congruence | reflexivity]. }
  split; [exact Hattached|]. split.
  { rewrite (handleSend_begin_eq clock attached Hblocked). cbv zeta.
    rewrite Hactive, Hid. cbn [option_map]. reflexivity. }
  split; [reflexivity|]. split.
  { unfold Client.activeConv. cbn [Client.conversations Client.activeConvId].
    rewrite find_conversation_map
      by (intros c; destruct (Client.conv_id c =? Client.activeConvId st);
          reflexivity).
    rewrite Hconvs. unfold Client.activeConv in Hconv. rewrite Hconv.
    cbn [option_map]. rewrite Hcid. reflexivity. }
  split; [cbn [Client.messages]; now rewrite Hinput|]. split; [exact Hcontents|].
  apply (first_call _ _ up (mkRequest (Some key) (Some (Client.body_of request)))
           (Client.body_of request)).
  - destruct key; [congruence | reflexivity].
  - reflexivity.
  - intros E. rewrite E in Hcontents. contradiction.
Qed.

Lemma selected_image_reaches_the_model_witness :
  exists request rest,
    Client.handleSend_begin
      (Client.mkClock 1700000000000 "2023-11-14T22:13:20.000Z")
      (fst (Client.handleFileSelect
              (fun _ => Some "data:image/png;base64,iVBORw0KGg==")
              [Client.mkBrowserFile "a.png" "image/png" 8] Client.initial))
    = Some (Client.mkState
              [Client.mkConversation 1 "New Conversation"
                 [Client.mkMessage 1700000000000 Client.user ""
                    (Some [mkFile "a.png" (Some "image/png") 8 (Some "iVBORw0KGg==")])
                    "2023-11-14T22:13:20.000Z" false]]
              1 "" [] true true false false,
            1, Some request)
    /\ Client.request_files request
       = [mkFile "a.png" (Some "image/png") 8 (Some "iVBORw0KGg==")]
    /\ In (InlineData "iVBORw0KGg==" "image/png")
          (build_contents (Client.body_of request))
    /\ snd (POST Scenario.up_403
              (mkRequest (Some "key") (Some (Client.body_of request))))
       = EvGenerate "gemini-3-flash-preview"
           (build_contents (Client.body_of request)) FORMATTING_INSTRUCTION
         :: rest.
Proof.
  destruct (selected_image_reaches_the_model
              (fun _ => Some "data:image/png;base64,iVBORw0KGg==")
              [Client.mkBrowserFile "a.png" "image/png" 8]
              (Client.mkBrowserFile "a.png" "image/png" 8) "iVBORw0KGg=="
              (Client.mkClock 1700000000000 "2023-11-14T22:13:20.000Z")
              Client.initial (Client.mkConversation 1 "New Conversation" [])
              Scenario.up_403 "key"
              ltac:(now left) eq_refl eq_refl eq_refl ltac:(discriminate)
              eq_refl eq_refl ltac:(discriminate))
    as (entry & sent & request & shown & _ & _ & _ & _ & Hsend & Hfiles & _ & _
        & Hpart & rest & Hcall).
  exists request, rest.
  vm_compute in Hsend. injection Hsend as _ Hreq.
  split; [rewrite <- Hreq; reflexivity|].
  split; [rewrite <- Hreq; reflexivity|].
  split; [exact Hpart | exact Hcall].
Defined.

(** ** The storage *)

(** X16: what the page saves, it loads again.  Taking the item of the
    storage for the value that [JSON.parse] reads from it: once the storage
    is loaded, saving a state whose conversations are not empty and whose
    active id is one of theirs and not 0, then loading into any state,
    restores the conversations and the active id.  Loading always marks the
    storage as loaded, never empties the conversations, and removes an item
    that cannot be read. *)
Theorem saved_conversations_are_restored
    (st st0 : Client.State) (storage : Client.Stored) :
  Client.storageLoaded st = true ->
  Client.conversations st <> [] ->
  Client.activeConvId st <> 0 ->
  In (Client.activeConvId st) (map Client.conv_id (Client.conversations st)) ->
  let loaded := Client.loadConversations (Client.saveConversations st storage) st0 in
  Client.conversations (fst loaded) = Client.conversations st
  /\ Client.activeConvId (fst loaded) = Client.activeConvId st
  /\ snd loaded = Client.saveConversations st storage
  /\ (forall s,
        Client.storageLoaded (fst (Client.loadConversations s st0)) = true
        /\ (Client.conversations st0 <> [] ->
            Client.conversations (fst (Client.loadConversations s st0)) <> []))
  /\ Client.loadConversations Client.Corrupt st0
     = (Client.mkState (Client.conversations st0) (Client.activeConvId st0)
          (Client.input st0) (Client.files st0) (Client.sidebarOpen st0)
          (Client.isLoading st0) true (Client.showClearModal st0),
        Client.NoItem).
Proof.
  intros Hloaded Hne Hid Hin loaded. subst loaded.
  unfold Client.saveConversations. rewrite Hloaded.
  split; [|split; [|split; [|split; [|reflexivity]]]].
  - cbn. destruct (Client.conversations st); [congruence | reflexivity].
  - cbn. destruct (Client.conversations st) as [|c l] eqn:E; [congruence|].
    cbn [fst Client.activeConvId].
    apply Z.eqb_neq in Hid. rewrite Hid. cbn [negb andb].
    assert (existsb (fun c0 => Client.conv_id c0 =? Client.activeConvId st) (c :: l)
            = true) as ->; [|reflexivity].
    apply existsb_exists. apply in_map_iff in Hin as (x & Hx & Hin).
    exists x. split; [exact Hin|]. apply Z.eqb_eq. exact Hx.
  - cbn. destruct (Client.conversations st); [congruence | reflexivity].
  - intros s. destruct s as [| |[[|c l]|] saved_id]; cbn; split; auto; discriminate.
Qed.

Lemma saved_conversations_are_restored_witness :
  Client.conversations
    (fst (Client.loadConversations
            (Client.saveConversations
               (Client.mkState
                  [Client.mkConversation 1 "First" [];
                   Client.mkConversation 2 "Second" []]
                  2 "" [] true false true false)
               Client.NoItem)
            Client.initial))
  = [Client.mkConversation 1 "First" []; Client.mkConversation 2 "Second" []]
  /\ Client.activeConvId
       (fst (Client.loadConversations
               (Client.saveConversations
                  (Client.mkState
                     [Client.mkConversation 1 "First" [];
                      Client.mkConversation 2 "Second" []]
                     2 "" [] true false true false)
                  Client.NoItem)
               Client.initial))
     = 2.
Proof.
  destruct (saved_conversations_are_restored
              (Client.mkState
                 [Client.mkConversation 1 "First" [];
                  Client.mkConversation 2 "Second" []]
                 2 "" [] true false true false)
              Client.initial Client.NoItem
              eq_refl ltac:(discriminate) ltac:(discriminate)
              ltac:(cbn; auto))
    as (Hconvs & Hid & _).
  split; [exact Hconvs | exact Hid].
Defined.

(** * [parseMarkdown] *)

Section MarkdownFacts.

Local Open Scope string_scope.

Lemma replace_unmatched (pattern : Markdown.Pattern) (s : string) :
  Markdown.unmatched pattern s -> Markdown.replace pattern s = s.
Proof.
  unfold Markdown.replace. induction s as [|c s IH]; [reflexivity|].
  intros [H U]. cbn [Markdown.replace_from]. rewrite H. f_equal. auto.
Qed.

Lemma all_chars_app (p : ascii -> bool) (a b : string) :
  Markdown.all_chars p (a ++ b) = Markdown.all_chars p a && Markdown.all_chars p b.
Proof.
  induction a as [|c a IH]; [reflexivity|]. cbn. rewrite IH. apply andb_assoc.
Qed.

Lemma all_chars_impl (p q : ascii -> bool) (s : string) :
  (forall c, p c = true -> q c = true) ->
  Markdown.all_chars p s = true -> Markdown.all_chars q s = true.
Proof.
  intros H. induction s as [|c s IH]; [reflexivity|]. cbn.
  rewrite !andb_true_iff. intros [Hc Hs]. auto.
Qed.

Lemma unmatched_app_without (d : ascii) (pattern : Markdown.Pattern) (x t : string) :
  Markdown.opens_with d pattern ->
  Markdown.all_chars (fun c => negb (Ascii.eqb d c)) x = true ->
  Markdown.unmatched pattern t ->
  Markdown.unmatched pattern (x ++ t).
Proof.
  intros Hp. induction x as [|c x IH]; [auto|]. cbn.
  rewrite andb_true_iff, negb_true_iff. intros [Hc Hx] Ht.
  split; [now apply Hp | auto].
Qed.

Lemma unmatched_without (d : ascii) (pattern : Markdown.Pattern) (s : string) :
  Markdown.opens_with d pattern ->
  Markdown.all_chars (fun c => negb (Ascii.eqb d c)) s = true ->
  Markdown.unmatched pattern s.
Proof.
  intros Hp Hs. rewrite <- (append_empty_r s).
  now apply (unmatched_app_without d).
Qed.

Lemma delimited_opens_with (d : ascii) (opening closing : string)
    (render : string -> string) :
  Markdown.opens_with d (Markdown.delimited (String d opening) closing render).
Proof.
  intros c s H. unfold Markdown.delimited. cbn [Markdown.after_literal].
  now rewrite H.
Qed.

Lemma link_opens_with : Markdown.opens_with "[" Markdown.link.
Proof.
  intros c s H. unfold Markdown.link. cbn [Markdown.after_literal]. now rewrite H.
Qed.

Lemma line_feed_opens_with : Markdown.opens_with "010" Markdown.line_feed.
Proof.
  intros c s H. unfold Markdown.line_feed.
  destruct (N.eqb_spec (Js.code c) 10) as [E | _]; [|reflexivity].
  assert (c = "010"%char) as -> by (apply code_inj; exact E). discriminate H.
Qed.

Lemma inert_chars (s : string) :
  Markdown.all_chars Markdown.inert s = true ->
  Markdown.all_chars (fun c => negb (Ascii.eqb "*" c)) s = true
  /\ Markdown.all_chars (fun c => negb (Ascii.eqb "_" c)) s = true
  /\ Markdown.all_chars (fun c => negb (Ascii.eqb "`" c)) s = true
  /\ Markdown.all_chars (fun c => negb (Ascii.eqb "[" c)) s = true
  /\ Markdown.all_chars (fun c => negb (Ascii.eqb "010" c)) s = true.
Proof.
  intros H. repeat split; revert H; apply all_chars_impl; intros c;
    unfold Markdown.inert; rewrite !andb_true_iff, !negb_true_iff;
    intros [[[[H1 H2] H3] H4] H5]; rewrite Ascii.eqb_sym; try assumption.
  destruct (Ascii.eqb_spec c "010") as [-> | _]; [discriminate H5 | reflexivity].
Qed.

(** A text of inert characters goes through every pass unchanged. *)
Lemma passes_on_inert (s : string) :
  Markdown.all_chars Markdown.inert s = true ->
  Markdown.replace (Markdown.delimited "**" "**" Markdown.strong) s = s
  /\ Markdown.replace (Markdown.delimited "__" "__" Markdown.strong) s = s
  /\ Markdown.replace (Markdown.delimited "*" "*" Markdown.em) s = s
  /\ Markdown.replace (Markdown.delimited "_" "_" Markdown.em) s = s
  /\ Markdown.replace (Markdown.delimited "`" "`" Markdown.code_tag) s = s
  /\ Markdown.replace Markdown.link s = s
  /\ Markdown.replace Markdown.line_feed s = s.
Proof.
  intros H. destruct (inert_chars s H) as (Ha & Hu & Hb & Hl & Hn).
  repeat split; apply replace_unmatched.
  - apply (unmatched_without "*"); [apply delimited_opens_with | exact Ha].
  - apply (unmatched_without "_"); [apply delimited_opens_with | exact Hu].
  - apply (unmatched_without "*"); [apply delimited_opens_with | exact Ha].
  - apply (unmatched_without "_"); [apply delimited_opens_with | exact Hu].
  - apply (unmatched_without "`"); [apply delimited_opens_with | exact Hb].
  - apply (unmatched_without "["); [apply link_opens_with | exact Hl].
  - apply (unmatched_without "010"); [apply line_feed_opens_with | exact Hn].
Qed.

(** X17: a text without asterisk, underscore, backquote, opening bracket
    and line feed is the HTML that [parseMarkdown] returns for it, as it
    is: nothing is escaped, the characters of HTML included; an absent or
    empty text gives the empty string. *)
Theorem parseMarkdown_keeps_plain_text (text : string) :
  Markdown.all_chars Markdown.inert text = true ->
  Markdown.parseMarkdown (Some text) = text
  /\ Markdown.parseMarkdown None = ""
  /\ Markdown.parseMarkdown (Some "") = "".
Proof.
  intros H. split; [|split; reflexivity].
  destruct text as [|c text]; [reflexivity|]. cbn [Markdown.parseMarkdown].
  destruct (passes_on_inert _ H) as (H1 & H2 & H3 & H4 & H5 & H6 & H7).
  cbv zeta. now rewrite H1, H2, H3, H4, H5, H6, H7.
Qed.

Lemma parseMarkdown_keeps_plain_text_witness :
  Markdown.parseMarkdown (Some "<img src=x onerror=alert(1)>")
  = "<img src=x onerror=alert(1)>".
Proof.
  exact (proj1 (parseMarkdown_keeps_plain_text "<img src=x onerror=alert(1)>"
                  eq_refl)).
Defined.



Lemma after_literal_app (p rest : string) :
  Markdown.after_literal p (p ++ rest) = Some rest.
Proof.
  induction p as [|c p IH]; [destruct rest; reflexivity|].
  cbn. now rewrite Ascii.eqb_refl.
Qed.

Lemma lazy_group_found (closing x t : string) (d : ascii) (rest : string) :
  x <> "" ->
  Markdown.all_chars
    (fun c => negb (Markdown.isLineTerminator c) && negb (Ascii.eqb d c)) x = true ->
  Markdown.after_literal (String d closing) t = Some rest ->
  Markdown.lazy_group (String d closing) (x ++ t) = Some x.
Proof.
  intros Hx H Ht. induction x as [|c x IH]; [congruence|]. cbn in H.
  apply andb_true_iff in H as [Hc Hcx]. apply andb_true_iff in Hc as [Hl Hd].
  apply negb_true_iff in Hl.
  cbn [append Markdown.lazy_group]. rewrite Hl.
  destruct x as [|c' x].
  - cbn [append]. now rewrite Ht.
  - assert (Ascii.eqb d c' = false) as Hd'.
    { cbn in Hcx. apply andb_true_iff in Hcx as [Hc' _].
      apply andb_true_iff in Hc' as [_ Hc']. now apply negb_true_iff in Hc'. }
    cbn [append Markdown.after_literal]. rewrite Hd'.
    change (String c' (x ++ t)) with (String c' x ++ t).
    rewrite IH; [reflexivity | discriminate | exact Hcx].
Qed.

Lemma lazy_link_found (x u t t2 : string) :
  x <> "" ->
  Markdown.all_chars
    (fun c => negb (Markdown.isLineTerminator c) && negb (Ascii.eqb "]" c)) x = true ->
  Markdown.after_literal "](" t = Some t2 ->
  Markdown.lazy_group ")" t2 = Some u ->
  Markdown.lazy_link (x ++ t) = Some (x, u).
Proof.
  intros Hx H Ht Hu. induction x as [|c x IH]; [congruence|]. cbn in H.
  apply andb_true_iff in H as [Hc Hcx]. apply andb_true_iff in Hc as [Hl Hd].
  apply negb_true_iff in Hl.
  cbn [append Markdown.lazy_link]. rewrite Hl.
  destruct x as [|c' x].
  - cbn [append]. now rewrite Ht, Hu.
  - assert (Ascii.eqb "]" c' = false) as Hd'.
    { cbn in Hcx. apply andb_true_iff in Hcx as [Hc' _].
      apply andb_true_iff in Hc' as [_ Hc']. now apply negb_true_iff in Hc'. }
    cbn [append Markdown.after_literal]. rewrite Hd'.
    change (String c' (x ++ t)) with (String c' x ++ t).
    rewrite IH; [reflexivity | discriminate | exact Hcx].
Qed.

Lemma replace_from_skip (pattern : Markdown.Pattern) (m rest : string) :
  Markdown.replace_from pattern (String.length m) (m ++ rest)
  = Markdown.replace_from pattern 0 rest.
Proof. induction m as [|c m IH]; [reflexivity | exact IH]. Qed.

(** A match of the whole text. *)
Lemma replace_whole (pattern : Markdown.Pattern) (c : ascii) (s replacement : string) :
  pattern (String c s) = Some (replacement, S (String.length s)) ->
  Markdown.replace pattern (String c s) = replacement.
Proof.
  intros H. unfold Markdown.replace. cbn [Markdown.replace_from]. rewrite H.
  cbn [Nat.sub]. rewrite Nat.sub_0_r.
  pose proof (replace_from_skip pattern s "") as E. rewrite append_empty_r in E.
  rewrite E. apply append_empty_r.
Qed.

Lemma delimited_whole (d : ascii) (opening closing x : string)
    (render : string -> string) :
  x <> "" ->
  Markdown.all_chars
    (fun c => negb (Markdown.isLineTerminator c) && negb (Ascii.eqb d c)) x = true ->
  Markdown.replace (Markdown.delimited opening (String d closing) render)
    (opening ++ x ++ String d closing)
  = render x.
Proof.
  intros Hx Hc.
  assert (Markdown.delimited opening (String d closing) render
            (opening ++ x ++ String d closing)
          = Some (render x,
                  String.length (opening ++ x ++ String d closing))) as H.
  { unfold Markdown.delimited. rewrite after_literal_app.
    rewrite (lazy_group_found closing x (String d closing) d "" Hx Hc);
      [|rewrite <- (append_empty_r (String d closing)) at 2;
        apply after_literal_app].
    now rewrite !string_length_app, Nat.add_assoc. }
  destruct (opening ++ x ++ String d closing) as [|c s] eqn:E.
  - exfalso. apply append_empty_inv in E as [_ E].
    apply append_empty_inv in E as [_ E]. discriminate E.
  - now apply replace_whole.
Qed.

Lemma plain_chars (s : string) :
  Markdown.all_chars Markdown.plain s = true ->
  Markdown.all_chars Markdown.inert s = true
  /\ (forall d,
        In d ["*"; "_"; "`"; "]"; ")"]%char ->
        Markdown.all_chars
          (fun c => negb (Markdown.isLineTerminator c) && negb (Ascii.eqb d c)) s
        = true).
Proof.
  intros H. split.
  - revert H. apply all_chars_impl. intros c. unfold Markdown.plain.
    rewrite !andb_true_iff. tauto.
  - intros d Hd. revert H. apply all_chars_impl. intros c.
    unfold Markdown.plain, Markdown.inert, Markdown.isLineTerminator.
    rewrite !andb_true_iff, !negb_true_iff, orb_false_iff.
    intros [[[[[[[H1 H2] H3] H4] H5] H6] H7] H8].
    split; [tauto|]. rewrite Ascii.eqb_sym.
    cbn in Hd. destruct Hd as [<- | [<- | [<- | [<- | [<- | []]]]]]; assumption.
Qed.

Lemma single_delimiters_unmatched (d : ascii) (x : string)
    (render : string -> string) :
  x <> "" ->
  Markdown.all_chars (fun c => negb (Ascii.eqb d c)) x = true ->
  Markdown.unmatched
    (Markdown.delimited (String d (String d "")) (String d (String d "")) render)
    (String d "" ++ x ++ String d "").
Proof.
  intros Hx Hc. destruct x as [|c x]; [congruence|].
  assert (Ascii.eqb d c = false) as Hd.
  { cbn in Hc. apply andb_true_iff in Hc as [Hc _]. now apply negb_true_iff in Hc. }
  change (String d "" ++ String c x ++ String d "")
    with (String d (String c x ++ String d "")).
  split.
  - unfold Markdown.delimited. cbn [append Markdown.after_literal].
    now rewrite Ascii.eqb_refl, Hd.
  - apply (unmatched_app_without d); [apply delimited_opens_with | exact Hc|].
    split; [|exact I].
    unfold Markdown.delimited. cbn [Markdown.after_literal].
    now rewrite Ascii.eqb_refl.
Qed.

Lemma parseMarkdown_eq (text : string) :
  text <> "" ->
  Markdown.parseMarkdown (Some text)
  = Markdown.replace Markdown.line_feed
      (Markdown.replace Markdown.link
         (Markdown.replace (Markdown.delimited "`" "`" Markdown.code_tag)
            (Markdown.replace (Markdown.delimited "_" "_" Markdown.em)
               (Markdown.replace (Markdown.delimited "*" "*" Markdown.em)
                  (Markdown.replace (Markdown.delimited "__" "__" Markdown.strong)
                     (Markdown.replace (Markdown.delimited "**" "**" Markdown.strong)
                        text)))))).
Proof. destruct text; [congruence | reflexivity]. Qed.

(** X19: each form of markup around plain text is rendered as its tag.
    For texts [x] and [u] that are not empty and hold neither markup
    characters nor brackets, parentheses or line terminators: two asterisks
    or two underscores around [x] give [<strong>], one asterisk or one
    underscore [<em>], backquotes [<code>] with its classes, and
    [[x](u)] the link to [u] that opens in a new tab. *)
Theorem markup_is_rendered (x u : string) :
  x <> "" -> u <> "" ->
  Markdown.all_chars Markdown.plain x = true ->
  Markdown.all_chars Markdown.plain u = true ->
  Markdown.parseMarkdown (Some ("**" ++ x ++ "**")) = "<strong>" ++ x ++ "</strong>"
  /\ Markdown.parseMarkdown (Some ("__" ++ x ++ "__")) = "<strong>" ++ x ++ "</strong>"
  /\ Markdown.parseMarkdown (Some ("*" ++ x ++ "*")) = "<em>" ++ x ++ "</em>"
  /\ Markdown.parseMarkdown (Some ("_" ++ x ++ "_")) = "<em>" ++ x ++ "</em>"
  /\ Markdown.parseMarkdown (Some ("`" ++ x ++ "`")) = Markdown.code_tag x
  /\ Markdown.parseMarkdown (Some ("[" ++ x ++ "](" ++ u ++ ")"))
     = Markdown.anchor x u.
Proof.
  intros Hx Hu Hpx Hpu.
  destruct (plain_chars x Hpx) as [Hix Hdx].
  destruct (plain_chars u Hpu) as [Hiu Hdu].
  assert (forall a b, Markdown.all_chars Markdown.inert a = true ->
                      Markdown.all_chars Markdown.inert b = true ->
                      Markdown.all_chars Markdown.inert (a ++ x ++ b) = true) as Hwrap.
  { intros a b Ha Hb. now rewrite !all_chars_app, Ha, Hix, Hb. }
  destruct (inert_chars x Hix) as (Hxa & Hxu & Hxb & Hxl & Hxn).
  repeat split.
  - cbn [append Markdown.parseMarkdown]. cbv zeta.
    change (String "*" (String "*" (x ++ "**"))) with ("**" ++ x ++ "**").
    rewrite (delimited_whole "*" "**" "*" x Markdown.strong Hx (Hdx "*"%char ltac:(cbn; auto 10))).
    destruct (passes_on_inert (Markdown.strong x) (Hwrap "<strong>" "</strong>" eq_refl eq_refl))
      as (_ & H2 & H3 & H4 & H5 & H6 & H7).
    now rewrite H2, H3, H4, H5, H6, H7.
  - cbn [append Markdown.parseMarkdown]. cbv zeta.
    change (String "_" (String "_" (x ++ "__"))) with ("__" ++ x ++ "__").
    rewrite (replace_unmatched (Markdown.delimited "**" "**" Markdown.strong));
      [|apply (unmatched_without "*"); [apply delimited_opens_with|];
        now rewrite !all_chars_app, Hxa].
    rewrite (delimited_whole "_" "__" "_" x Markdown.strong Hx (Hdx "_"%char ltac:(cbn; auto 10))).
    destruct (passes_on_inert (Markdown.strong x) (Hwrap "<strong>" "</strong>" eq_refl eq_refl))
      as (_ & _ & H3 & H4 & H5 & H6 & H7).
    now rewrite H3, H4, H5, H6, H7.
  - cbn [append Markdown.parseMarkdown]. cbv zeta.
    change (String "*" (x ++ "*")) with ("*" ++ x ++ "*").
    rewrite (replace_unmatched (Markdown.delimited "**" "**" Markdown.strong));
      [|apply (single_delimiters_unmatched "*" x Markdown.strong Hx Hxa)].
    rewrite (replace_unmatched (Markdown.delimited "__" "__" Markdown.strong));
      [|apply (unmatched_without "_"); [apply delimited_opens_with|];
        now rewrite !all_chars_app, Hxu].
    rewrite (delimited_whole "*" "*" "" x Markdown.em Hx (Hdx "*"%char ltac:(cbn; auto 10))).
    destruct (passes_on_inert (Markdown.em x) (Hwrap "<em>" "</em>" eq_refl eq_refl))
      as (_ & _ & _ & H4 & H5 & H6 & H7).
    now rewrite H4, H5, H6, H7.
  - cbn [append Markdown.parseMarkdown]. cbv zeta.
    change (String "_" (x ++ "_")) with ("_" ++ x ++ "_").
    rewrite (replace_unmatched (Markdown.delimited "**" "**" Markdown.strong));
      [|apply (unmatched_without "*"); [apply delimited_opens_with|];
        now rewrite !all_chars_app, Hxa].
    rewrite (replace_unmatched (Markdown.delimited "__" "__" Markdown.strong));
      [|apply (single_delimiters_unmatched "_" x Markdown.strong Hx Hxu)].
    rewrite (replace_unmatched (Markdown.delimited "*" "*" Markdown.em));
      [|apply (unmatched_without "*"); [apply delimited_opens_with|];
        now rewrite !all_chars_app, Hxa].
    rewrite (delimited_whole "_" "_" "" x Markdown.em Hx (Hdx "_"%char ltac:(cbn; auto 10))).
    destruct (passes_on_inert (Markdown.em x) (Hwrap "<em>" "</em>" eq_refl eq_refl))
      as (_ & _ & _ & _ & H5 & H6 & H7).
    now rewrite H5, H6, H7.
  - cbn [append Markdown.parseMarkdown]. cbv zeta.
    change (String "`" (x ++ "`")) with ("`" ++ x ++ "`").
    rewrite (replace_unmatched (Markdown.delimited "**" "**" Markdown.strong));
      [|apply (unmatched_without "*"); [apply delimited_opens_with|];
        now rewrite !all_chars_app, Hxa].
    rewrite (replace_unmatched (Markdown.delimited "__" "__" Markdown.strong));
      [|apply (unmatched_without "_"); [apply delimited_opens_with|];
        now rewrite !all_chars_app, Hxu].
    rewrite (replace_unmatched (Markdown.delimited "*" "*" Markdown.em));
      [|apply (unmatched_without "*"); [apply delimited_opens_with|];
        now rewrite !all_chars_app, Hxa].
    rewrite (replace_unmatched (Markdown.delimited "_" "_" Markdown.em));
      [|apply (unmatched_without "_"); [apply delimited_opens_with|];
        now rewrite !all_chars_app, Hxu].
    rewrite (delimited_whole "`" "`" "" x Markdown.code_tag Hx (Hdx "`"%char ltac:(cbn; auto 10))).
    assert (Markdown.all_chars
              (fun c => negb (Ascii.eqb "[" c)) (Markdown.code_tag x) = true) as Hl
      by (unfold Markdown.code_tag; now rewrite !all_chars_app, Hxl).
    assert (Markdown.all_chars
              (fun c => negb (Ascii.eqb "010" c)) (Markdown.code_tag x) = true) as Hn
      by (unfold Markdown.code_tag; now rewrite !all_chars_app, Hxn).
    rewrite (replace_unmatched Markdown.link);
      [|apply (unmatched_without "["); [apply link_opens_with | exact Hl]].
    apply replace_unmatched.
    apply (unmatched_without "010"); [apply line_feed_opens_with | exact Hn].
  - destruct (inert_chars u Hiu) as (Hua & Huu & Hub & Hul & Hun).
    rewrite parseMarkdown_eq by discriminate.
    rewrite (replace_unmatched (Markdown.delimited "**" "**" Markdown.strong));
      [|apply (unmatched_without "*"); [apply delimited_opens_with|];
        now rewrite !all_chars_app, Hxa, Hua].
    rewrite (replace_unmatched (Markdown.delimited "__" "__" Markdown.strong));
      [|apply (unmatched_without "_"); [apply delimited_opens_with|];
        now rewrite !all_chars_app, Hxu, Huu].
    rewrite (replace_unmatched (Markdown.delimited "*" "*" Markdown.em));
      [|apply (unmatched_without "*"); [apply delimited_opens_with|];
        now rewrite !all_chars_app, Hxa, Hua].
    rewrite (replace_unmatched (Markdown.delimited "_" "_" Markdown.em));
      [|apply (unmatched_without "_"); [apply delimited_opens_with|];
        now rewrite !all_chars_app, Hxu, Huu].
    rewrite (replace_unmatched (Markdown.delimited "`" "`" Markdown.code_tag));
      [|apply (unmatched_without "`"); [apply delimited_opens_with|];
        now rewrite !all_chars_app, Hxb, Hub].
    assert (Markdown.replace Markdown.link ("[" ++ x ++ "](" ++ u ++ ")")
            = Markdown.anchor x u) as ->.
    { change ("[" ++ x ++ "](" ++ u ++ ")") with (String "[" (x ++ "](" ++ u ++ ")")).
      apply replace_whole. unfold Markdown.link.
      cbn [Markdown.after_literal]. rewrite Ascii.eqb_refl.
      rewrite (lazy_link_found x u ("](" ++ u ++ ")") (u ++ ")") Hx
                 (Hdx "]"%char ltac:(cbn; auto 10)) (after_literal_app "](" (u ++ ")"))
                 (lazy_group_found "" u ")" ")" "" Hu (Hdu ")"%char ltac:(cbn; auto 10))
                    eq_refl)).
      do 2 f_equal. rewrite !string_length_app. cbn [String.length]. lia. }
    apply replace_unmatched. apply (unmatched_without "010");
      [apply line_feed_opens_with|].
    unfold Markdown.anchor. now rewrite !all_chars_app, Hxn, Hun.
Qed.

Lemma markup_is_rendered_witness :
  Markdown.parseMarkdown (Some "**very**") = "<strong>very</strong>"
  /\ Markdown.parseMarkdown (Some "[docs](https://nextjs.org)")
     = Markdown.anchor "docs" "https://nextjs.org".
Proof.
  destruct (markup_is_rendered "very" "https://nextjs.org"
              ltac:(discriminate) ltac:(discriminate) eq_refl eq_refl)
    as (Hbold & _).
  destruct (markup_is_rendered "docs" "https://nextjs.org"
              ltac:(discriminate) ltac:(discriminate) eq_refl eq_refl)
    as (_ & _ & _ & _ & _ & Hlink).
  split; [exact Hbold | exact Hlink].
Defined.

End MarkdownFacts.
